(** * SlotSwapper: the swap transaction engine of the backend

    A shallow embedding of the Express/Mongoose backend
    ([backend/src/models], [backend/src/routes/events.js],
    [backend/src/routes/swapRequests.js]) and the properties of its event
    status machine and swap-request life cycle.

    The two MongoDB collections are an explicit store threaded through the
    route handlers.  A handler body is a computation in a small state and
    exception monad; the handler's [try { ... } catch] turns an exception
    into a 500 response and keeps every write made before it. *)

From Stdlib Require Import ZArith Ascii String.
From stdpp Require Import gmap strings list fin_maps sorting.

Set Default Proof Using "Type".
Local Open Scope string_scope.
Local Open Scope nat_scope.
Local Open Scope list_scope.
Local Open Scope stdpp_scope.

(** ** Documents *)

(** [models/Event.js]: [status] has
    [enum: ['BUSY', 'SWAPPABLE', 'SWAP_PENDING']]. *)
Inductive EventStatus := BUSY | SWAPPABLE | SWAP_PENDING.

(** [models/SwapRequest.js]: [status] has
    [enum: ['PENDING', 'ACCEPTED', 'REJECTED']]. *)
Inductive RequestStatus := PENDING | ACCEPTED | REJECTED.

#[global] Instance EventStatus_eq_dec : EqDecision EventStatus.
Proof. solve_decision. Defined.

#[global] Instance RequestStatus_eq_dec : EqDecision RequestStatus.
Proof. solve_decision. Defined.

(** The stored fields of an event.  Instants are milliseconds since the
    epoch.  The [createdAt]/[updatedAt] stamps of events are never read by
    the routes and are left out. *)
Module eventSchema.
Record doc := mk {
  user_id : nat;
  title : string;
  start_time : Z;
  end_time : Z;
  status : EventStatus
}.

Definition with_user_id (u : nat) (e : doc) : doc :=
  mk u (title e) (start_time e) (end_time e) (status e).
Definition with_title (t : string) (e : doc) : doc :=
  mk (user_id e) t (start_time e) (end_time e) (status e).
Definition with_start_time (t : Z) (e : doc) : doc :=
  mk (user_id e) (title e) t (end_time e) (status e).
Definition with_end_time (t : Z) (e : doc) : doc :=
  mk (user_id e) (title e) (start_time e) t (status e).
Definition with_status (s : EventStatus) (e : doc) : doc :=
  mk (user_id e) (title e) (start_time e) (end_time e) s.
End eventSchema.

#[global] Instance event_doc_eq_dec : EqDecision eventSchema.doc.
Proof. solve_decision. Defined.

(** The update a [save] sends for a document that was [loaded] and then
    [assigned] to: the paths whose value changed are set on the [stored]
    document, the others are left as stored. *)
Definition write_modified (loaded assigned stored : eventSchema.doc)
    : eventSchema.doc :=
  eventSchema.mk
    (if decide (eventSchema.user_id assigned = eventSchema.user_id loaded)
     then eventSchema.user_id stored else eventSchema.user_id assigned)
    (if decide (eventSchema.title assigned = eventSchema.title loaded)
     then eventSchema.title stored else eventSchema.title assigned)
    (if decide (eventSchema.start_time assigned = eventSchema.start_time loaded)
     then eventSchema.start_time stored else eventSchema.start_time assigned)
    (if decide (eventSchema.end_time assigned = eventSchema.end_time loaded)
     then eventSchema.end_time stored else eventSchema.end_time assigned)
    (if decide (eventSchema.status assigned = eventSchema.status loaded)
     then eventSchema.status stored else eventSchema.status assigned).

(** The stored fields of a swap request.  The schema option
    [timestamps: true] makes Mongoose stamp every new document with the
    creation instant under the path [createdAt] (and keep [updatedAt],
    which no route reads and which is left out). *)
Module swapRequestSchema.
Record doc := mk {
  requester_id : nat;
  requester_event_id : nat;
  recipient_id : nat;
  recipient_event_id : nat;
  status : RequestStatus;
  createdAt : Z
}.

Definition with_status (s : RequestStatus) (r : doc) : doc :=
  mk (requester_id r) (requester_event_id r) (recipient_id r)
     (recipient_event_id r) s (createdAt r).
End swapRequestSchema.

(** ** The store *)

(** Events are keyed by their [_id]; ObjectIds are never reused, so fresh
    ids come from a counter.  Swap requests are never deleted by any route:
    the collection is a list in insertion (natural) order and the [_id] of a
    request is its position. *)
Record Db := mkDb {
  events : gmap nat eventSchema.doc;
  next_event_id : nat;
  swaprequests : list swapRequestSchema.doc
}.

Definition empty_db : Db := mkDb ∅ 0 [].

Definition with_events (f : gmap nat eventSchema.doc → gmap nat eventSchema.doc)
    (db : Db) : Db :=
  mkDb (f (events db)) (next_event_id db) (swaprequests db).

Definition with_swaprequests
    (f : list swapRequestSchema.doc → list swapRequestSchema.doc) (db : Db) : Db :=
  mkDb (events db) (next_event_id db) (f (swaprequests db)).

(** ** Exceptions, persistence faults and the handler monad *)

Inductive exn :=
  | ValidationError   (* a path fails its schema validator on save *)
  | CastError         (* a string that is no ObjectId used as an id *)
  | StorageError.     (* the database rejects or loses a write *)

(** The document a write is aimed at.  A fault oracle says which writes the
    persistence layer fails; [no_faults] is a healthy database.  The oracle
    covers the writes only: every read is taken to be answered.  (A read
    the database rejects would land in the [catch] of its route, which
    answers 500; no route has written anything before its first read.) *)
Inductive target := EventDoc (id : nat) | RequestDoc (id : nat).

Definition Faults := target → bool.
Definition no_faults : Faults := λ _, false.

Definition M (A : Type) : Type := Db → Db * (exn + A).

Definition ret {A} (a : A) : M A := λ db, (db, inr a).
Definition throw {A} (e : exn) : M A := λ db, (db, inl e).
Definition bind {A B} (m : M A) (k : A → M B) : M B :=
  λ db, match m db with
        | (db', inr a) => k a db'
        | (db', inl e) => (db', inl e)
        end.

Notation "'await' x '<~' m 'in' k" := (bind m (λ x, k))
  (at level 10, x pattern, m at level 100, k at level 200,
   format "'[v' 'await'  x  '<~'  m  'in' '/' k ']'").

(** [Promise.all([p, q])]: both operations are started, so both take
    effect; the result rejects with the first rejection. *)
Definition Promise_all {A B} (p : M A) (q : M B) : M (A * B) :=
  λ db, let '(db1, a) := p db in
        let '(db2, b) := q db1 in
        match a, b with
        | inr a, inr b => (db2, inr (a, b))
        | inl e, _ => (db2, inl e)
        | _, inl e => (db2, inl e)
        end.

(** ** Requests and responses *)

(** An id that arrives as a string: Mongoose accepts it only when it is a
    well-formed ObjectId. *)
Inductive IdParam := NotAnObjectId | ObjectId (n : nat).

(** A swap request with its two event references populated; a reference to
    a deleted event populates to [None] (JavaScript [null]). *)
Record populated := mkPopulated {
  _id : nat;
  fields : swapRequestSchema.doc;
  requester_event : option eventSchema.doc;
  recipient_event : option eventSchema.doc
}.

Inductive Body :=
  | Error (error : string)
  | Failure (error : string) (cause : exn)
  | Message (message : string)
  | DataEvent (id : nat) (e : eventSchema.doc)
  | DataRequest (r : option populated)
  | DataRequests (rs : list populated).

Record Response := mkResponse { code : nat; body : Body }.

(** [try { body } catch (error) { res.status(500).json({ error: what, ... }) }] *)
Definition handler (what : string) (m : M Response) (db : Db) : Db * Response :=
  match m db with
  | (db', inr r) => (db', r)
  | (db', inl e) => (db', mkResponse 500 (Failure what e))
  end.

(** ** JavaScript and Mongoose helpers *)

(** Truthiness of an optional string field of the request body: a missing
    field and the empty string are both falsy. *)
Definition truthy (s : option string) : option string :=
  match s with
  | Some s => if String.eqb s "" then None else Some s
  | None => None
  end.

(** [a || b] on optional body fields. *)
Definition or_else {A} (a b : option A) : option A :=
  match a with Some _ => a | None => b end.

(** A date field of the request body: missing (falsy), a value [new Date]
    cannot parse, or one that denotes an instant. *)
Inductive DateField := NoDate | BadDate | Instant (ms : Z).

(** [new Date(x)]; [None] is the Invalid Date. *)
Definition new_Date (x : DateField) : option Z :=
  match x with Instant ms => Some ms | _ => None end.

(** [endDate <= startDate]: false as soon as one side is the Invalid Date. *)
Definition date_le (a b : option Z) : bool :=
  match a, b with
  | Some a, Some b => (a <=? b)%Z
  | _, _ => false
  end.

(** The white space [String.prototype.trim] strips, as the UTF-8 bytes of
    each character: tab, line feed, vertical tab, form feed, carriage
    return and space, then U+00A0, U+1680, U+2000 to U+200A, U+2028,
    U+2029, U+202F, U+205F, U+3000 and U+FEFF. *)
Definition white_space : list (list ascii) :=
  (λ bytes : list nat, ascii_of_nat <$> bytes) <$>
    [ [9]; [10]; [11]; [12]; [13]; [32];
      [194; 160];
      [225; 154; 128];
      [226; 128; 128]; [226; 128; 129]; [226; 128; 130]; [226; 128; 131];
      [226; 128; 132]; [226; 128; 133]; [226; 128; 134]; [226; 128; 135];
      [226; 128; 136]; [226; 128; 137]; [226; 128; 138];
      [226; 128; 168]; [226; 128; 169];
      [226; 128; 175];
      [226; 129; 159];
      [227; 128; 128];
      [239; 187; 191] ].

(** [l] without its prefix [p], when it starts with [p]. *)
Fixpoint strip_prefix (p l : list ascii) : option (list ascii) :=
  match p, l with
  | [], _ => Some l
  | c :: p', d :: l' => if Ascii.eqb c d then strip_prefix p' l' else None
  | _ :: _, [] => None
  end.

(** [l] without the white-space character of [ws] it starts with. *)
Fixpoint strip_space (ws : list (list ascii)) (l : list ascii)
    : option (list ascii) :=
  match ws with
  | [] => None
  | p :: ws' => match strip_prefix p l with
                | Some l' => Some l'
                | None => strip_space ws' l
                end
  end.

(** Strip leading white space; every round removes at least one byte, so
    [length l] rounds are enough. *)
Fixpoint strip_spaces (rounds : nat) (ws : list (list ascii)) (l : list ascii)
    : list ascii :=
  match rounds with
  | 0 => l
  | S rounds' => match strip_space ws l with
                 | Some l' => strip_spaces rounds' ws l'
                 | None => l
                 end
  end.

Definition trim_start (l : list ascii) : list ascii :=
  strip_spaces (length l) white_space l.

Definition trim_end (l : list ascii) : list ascii :=
  rev (strip_spaces (length l) (map (@rev ascii) white_space) (rev l)).

(** The [trim: true] setter of [title]: [String.prototype.trim] on the
    UTF-8 text of the string. *)
Definition trim (s : string) : string :=
  string_of_list_ascii (trim_end (trim_start (list_ascii_of_string s))).

(** The [enum] validator of the event [status] path. *)
Definition parse_status (s : string) : option EventStatus :=
  if String.eqb s "BUSY" then Some BUSY
  else if String.eqb s "SWAPPABLE" then Some SWAPPABLE
  else if String.eqb s "SWAP_PENDING" then Some SWAP_PENDING
  else None.

Definition status_name (s : EventStatus) : string :=
  match s with
  | BUSY => "BUSY"
  | SWAPPABLE => "SWAPPABLE"
  | SWAP_PENDING => "SWAP_PENDING"
  end.

(** Casting and validating the paths of an event document: [title] is
    trimmed and required, the dates must be valid, [status] must be in the
    enum.  [None] is a validation failure. *)
Definition cast_title (t : string) : option string :=
  let t' := trim t in if String.eqb t' "" then None else Some t'.

(** ** The Mongoose models *)

(** [models/Event.js].  Every write goes through the fault oracle; reads
    never change the store. *)
Module Event.
Import eventSchema.

Section statics.
Variable flt : Faults.

(** [Event.findById(id)]: a string that is no ObjectId fails the cast
    of the [_id] path. *)
Definition findById (id : IdParam) : M (option doc) :=
  match id with
  | NotAnObjectId => throw CastError
  | ObjectId n => λ db, (db, inr (events db !! n))
  end.

(** [Event.findOne({ _id: id, user_id: user })] *)
Definition findOne (id : IdParam) (user : nat) : M (option (nat * doc)) :=
  match id with
  | NotAnObjectId => throw CastError
  | ObjectId n =>
      λ db, (db, inr (match events db !! n with
                      | Some e => if decide (user_id e = user)
                                  then Some (n, e) else None
                      | None => None
                      end))
  end.

(** [new Event({ user_id, title, start_time, end_time, status }).save()]:
    the document is cast and validated, then inserted under a fresh
    [_id]. *)
Definition create (user : nat) (t : string) (s e : option Z) (st : string)
    : M (nat * doc) :=
  match cast_title t, s, e, parse_status st with
  | Some t, Some s, Some e, Some st =>
      λ db, let n := next_event_id db in
            let d := mk user t s e st in
            if flt (EventDoc n) then (db, inl StorageError)
            else (mkDb (<[n := d]> (events db)) (S n) (swaprequests db),
                  inr (n, d))
  | _, _, _, _ => throw ValidationError
  end.

(** [doc.save()] on a document that was [loaded] from the store and has
    since been [assigned] to: Mongoose marks a path modified only when its
    value changed.  With no modified path no write is sent at all;
    otherwise one update sets the modified paths on the stored document of
    that [_id]. *)
Definition save (n : nat) (loaded assigned : doc) : M unit :=
  λ db, if decide (assigned = loaded) then (db, inr tt)
        else if flt (EventDoc n) then (db, inl StorageError)
        else (with_events (alter (write_modified loaded assigned) n) db,
              inr tt).

(** [Event.findByIdAndUpdate(id, { status })]; nothing happens when no
    document has that id. *)
Definition findByIdAndUpdate (n : nat) (st : EventStatus) : M unit :=
  λ db, if flt (EventDoc n) then (db, inl StorageError)
        else (with_events (alter (with_status st) n) db, inr tt).

(** [doc.deleteOne()] *)
Definition deleteOne (n : nat) : M unit :=
  λ db, if flt (EventDoc n) then (db, inl StorageError)
        else (with_events (delete n) db, inr tt).
End statics.
End Event.

(** A value stored under a path of a document, as the query engine sees
    it. *)
Inductive bson :=
  | BNull
  | BString (s : string)
  | BObjectId (n : nat)
  | BDate (ms : Z).

(** The BSON comparison order puts null below strings, strings below
    ObjectIds and ObjectIds below dates. *)
Definition bson_rank (v : bson) : nat :=
  match v with BNull => 0 | BString _ => 1 | BObjectId _ => 2 | BDate _ => 3 end.

Definition bson_ltb (a b : bson) : bool :=
  match a, b with
  | BString s, BString t =>
      match String.compare s t with Lt => true | _ => false end
  | BObjectId n, BObjectId m => Nat.ltb n m
  | BDate x, BDate y => (x <? y)%Z
  | _, _ => Nat.ltb (bson_rank a) (bson_rank b)
  end.

Section sort.
Context {A : Type} (key : A → bson).

(** [x] goes in front of the first document whose key is not greater
    than its own: documents with equal keys keep their order. *)
Fixpoint insert_desc (x : A) (l : list A) : list A :=
  match l with
  | [] => [x]
  | y :: l' => if bson_ltb (key x) (key y) then y :: insert_desc x l'
               else x :: l
  end.

(** [.sort({ path: -1 })]: descending by [key], stable. *)
Definition sort_desc (l : list A) : list A := foldr insert_desc [] l.
End sort.

(** [models/SwapRequest.js] *)
Module SwapRequest.
Import swapRequestSchema.

Definition status_name (s : RequestStatus) : string :=
  match s with
  | PENDING => "PENDING"
  | ACCEPTED => "ACCEPTED"
  | REJECTED => "REJECTED"
  end.

(** The value of a path of a stored swap request.  The stored paths are
    the six schema paths, [_id] and the [createdAt] stamp of
    [timestamps: true]; any other name, [created_at] among them, is a
    missing field, which the query engine reads as null. *)
Definition get (path : string) (r : nat * doc) : bson :=
  if String.eqb path "_id" then BObjectId r.1
  else if String.eqb path "requester_id" then BObjectId (requester_id r.2)
  else if String.eqb path "requester_event_id"
    then BObjectId (requester_event_id r.2)
  else if String.eqb path "recipient_id" then BObjectId (recipient_id r.2)
  else if String.eqb path "recipient_event_id"
    then BObjectId (recipient_event_id r.2)
  else if String.eqb path "status" then BString (status_name (status r.2))
  else if String.eqb path "createdAt" then BDate (createdAt r.2)
  else BNull.

(** The collection in natural order, each document with its [_id]. *)
Definition all (db : Db) : list (nat * doc) :=
  imap (λ i r, (i, r)) (swaprequests db).

(** [.populate('requester_event_id').populate('recipient_event_id')] *)
Definition populate (db : Db) (r : nat * doc) : populated :=
  mkPopulated r.1 r.2
    (events db !! requester_event_id r.2)
    (events db !! recipient_event_id r.2).

(** [SwapRequest.find(filter).populate(...).sort({ path: -1 })] *)
Definition find (filter : doc → bool) (sort_path : string)
    : M (list populated) :=
  λ db, (db, inr (populate db <$>
                    sort_desc (get sort_path)
                      (List.filter (λ r, filter r.2) (all db)))).

(** [SwapRequest.findById(id).populate(...).populate(...)] *)
Definition findById (n : nat) : M (option populated) :=
  λ db, (db, inr ((λ r, populate db (n, r)) <$> swaprequests db !! n)).

Section statics.
Variable flt : Faults.

(** [new SwapRequest({ ... , status: 'PENDING' }).save()]: appended to
    the collection and stamped with the creation instant. *)
Definition create (requester requester_event recipient recipient_event : nat)
    (now : Z) : M nat :=
  λ db, let n := length (swaprequests db) in
        if flt (RequestDoc n) then (db, inl StorageError)
        else (with_swaprequests
                (λ l, l ++ [mk requester requester_event recipient
                               recipient_event PENDING now]) db,
              inr n).

(** [swapRequest.status = st; await swapRequest.save()] *)
Definition save_status (n : nat) (st : RequestStatus) : M unit :=
  λ db, if flt (RequestDoc n) then (db, inl StorageError)
        else (with_swaprequests (alter (with_status st) n) db, inr tt).
End statics.
End SwapRequest.

(** ** Routes of [routes/events.js] *)

Module EventBody.
(** [const { title, start_time, end_time, status } = req.body] *)
Record t := mk {
  title : option string;
  start_time : DateField;
  end_time : DateField;
  status : option string
}.
End EventBody.

Definition compose_changes (cs : list (option (eventSchema.doc → eventSchema.doc)))
    : option (eventSchema.doc → eventSchema.doc) :=
  foldr (λ c acc, match c, acc with
                  | Some f, Some g => Some (λ e, g (f e))
                  | _, _ => None
                  end) (Some (λ e, e)) cs.

Section event_routes.
Variable flt : Faults.

(** [router.post('/')]: create a new event for [user] = [req.user._id]. *)
Definition create_event (user : nat) (b : EventBody.t) : Db → Db * Response :=
  handler "Failed to create event"
    match truthy (EventBody.title b), EventBody.start_time b, EventBody.end_time b with
    | None, _, _ | _, NoDate, _ | _, _, NoDate =>
        ret (mkResponse 400 (Error "Title, start time, and end time are required"))
    | Some title, start_time, end_time =>
        let startDate := new_Date start_time in
        let endDate := new_Date end_time in
        if date_le endDate startDate
        then ret (mkResponse 400 (Error "End time must be after start time"))
        else
          await event <~ Event.create flt user title startDate endDate
                           (default "BUSY" (truthy (EventBody.status b))) in
          ret (mkResponse 201 (DataEvent event.1 event.2))
    end.

(** The assignments [if (title) event.title = title; ...] of the update
    route, each cast by its schema path; [None] when one of them makes
    the following [save] fail validation. *)
Definition update_changes (b : EventBody.t)
    : option (eventSchema.doc → eventSchema.doc) :=
  compose_changes
    [ match truthy (EventBody.title b) with
      | None => Some (λ e, e)
      | Some t => eventSchema.with_title <$> cast_title t
      end;
      match EventBody.start_time b with
      | NoDate => Some (λ e, e)
      | d => eventSchema.with_start_time <$> new_Date d
      end;
      match EventBody.end_time b with
      | NoDate => Some (λ e, e)
      | d => eventSchema.with_end_time <$> new_Date d
      end;
      match truthy (EventBody.status b) with
      | None => Some (λ e, e)
      | Some s => eventSchema.with_status <$> parse_status s
      end ].

(** [router.put('/:id')]: update an event of [user]. *)
Definition update_event (user : nat) (id : IdParam) (b : EventBody.t)
    : Db → Db * Response :=
  handler "Failed to update event"
    (await event <~ Event.findOne id user in
     match event with
     | None => ret (mkResponse 404 (Error "Event not found"))
     | Some (n, e) =>
         if decide (eventSchema.status e = SWAP_PENDING)
         then ret (mkResponse 400 (Error "Cannot modify events with pending swaps"))
         else
           match update_changes b with
           | None => throw ValidationError
           | Some changes =>
               await _ <~ Event.save flt n e (changes e) in
               ret (mkResponse 200 (DataEvent n (changes e)))
           end
     end).

(** [router.delete('/:id')]: delete an event of [user]. *)
Definition delete_event (user : nat) (id : IdParam) : Db → Db * Response :=
  handler "Failed to delete event"
    (await event <~ Event.findOne id user in
     match event with
     | None => ret (mkResponse 404 (Error "Event not found"))
     | Some (n, _) =>
         await _ <~ Event.deleteOne flt n in
         ret (mkResponse 200 (Message "Event deleted successfully"))
     end).
End event_routes.

(** ** Routes of [routes/swapRequests.js] *)

Module SwapBody.
(** The body of the create route, in both naming conventions. *)
Record t := mk {
  mySlotId : option IdParam;
  requester_event_id : option IdParam;
  theirSlotId : option IdParam;
  recipient_event_id : option IdParam
}.
End SwapBody.

(** The failures of the swap routes, under the names of the error
    taxonomy. *)
Definition MissingIds : Response :=
  mkResponse 400 (Error "Both event IDs are required (mySlotId and theirSlotId)").
Definition EventsNotFound : Response :=
  mkResponse 404 (Error "One or both events not found").
Definition NotOwner : Response :=
  mkResponse 403 (Error "You do not own the requester event").
Definition NotSwappable : Response :=
  mkResponse 400 (Error "One or both events are no longer swappable").
Definition InvalidRequestId : Response :=
  mkResponse 400 (Error "Invalid request id").
Definition RequestNotFound : Response :=
  mkResponse 404 (Error "Swap request not found").
Definition Forbidden : Response :=
  mkResponse 403 (Error "You are not authorized to respond to this request").
Definition AlreadyResolved : Response :=
  mkResponse 400 (Error "Swap request is no longer pending").
Definition EventsGone : Response :=
  mkResponse 404 (Error "One or both events no longer exist").

(** [router.get('/incoming')]: the requests addressed to [user]. *)
Definition listIncoming (user : nat) : Db → Db * Response :=
  handler "Failed to fetch incoming requests"
    (await requests <~
       SwapRequest.find
         (λ r, bool_decide (swapRequestSchema.recipient_id r = user))
         "created_at" in
     ret (mkResponse 200 (DataRequests requests))).

(** [router.get('/outgoing')]: the requests made by [user]. *)
Definition listOutgoing (user : nat) : Db → Db * Response :=
  handler "Failed to fetch outgoing requests"
    (await requests <~
       SwapRequest.find
         (λ r, bool_decide (swapRequestSchema.requester_id r = user))
         "created_at" in
     ret (mkResponse 200 (DataRequests requests))).

Section swap_routes.
Variable flt : Faults.

(** [router.post('/')]: [user] proposes to swap the event [mySlotId]
    against the event [theirSlotId]; [now] is the instant the new
    request is stamped with. *)
Definition propose (user : nat) (now : Z) (b : SwapBody.t)
    : Db → Db * Response :=
  handler "Failed to create swap request"
    match or_else (SwapBody.mySlotId b) (SwapBody.requester_event_id b),
          or_else (SwapBody.theirSlotId b) (SwapBody.recipient_event_id b) with
    | Some mySlotId, Some theirSlotId =>
        await found <~ Promise_all (Event.findById mySlotId)
                                   (Event.findById theirSlotId) in
        match mySlotId, theirSlotId, found with
        | ObjectId mine, ObjectId theirs, (Some requesterEvent, Some recipientEvent) =>
            if negb (bool_decide (eventSchema.user_id requesterEvent = user))
            then ret NotOwner
            else if negb (bool_decide (eventSchema.status requesterEvent = SWAPPABLE))
                    || negb (bool_decide (eventSchema.status recipientEvent = SWAPPABLE))
            then ret NotSwappable
            else
              await swapRequest <~
                SwapRequest.create flt user mine
                  (eventSchema.user_id recipientEvent) theirs now in
              await _ <~ Promise_all
                           (Event.findByIdAndUpdate flt mine SWAP_PENDING)
                           (Event.findByIdAndUpdate flt theirs SWAP_PENDING) in
              await populatedRequest <~ SwapRequest.findById swapRequest in
              ret (mkResponse 201 (DataRequest populatedRequest))
        | _, _, _ => ret EventsNotFound
        end
    | _, _ => ret MissingIds
    end.

(** [router.put('/:id/respond')] (and its twin [swapResponseHandler]):
    [user] accepts or rejects the swap request [id]. *)
Definition respond (user : nat) (id : IdParam) (accept : bool)
    : Db → Db * Response :=
  handler "Failed to respond to swap request"
    match id with
    | NotAnObjectId => ret InvalidRequestId
    | ObjectId n =>
        await swapRequest <~ SwapRequest.findById n in
        match swapRequest with
        | None => ret RequestNotFound
        | Some swapRequest =>
            if negb (bool_decide
                       (swapRequestSchema.recipient_id (fields swapRequest) = user))
            then ret Forbidden
            else if negb (bool_decide
                       (swapRequestSchema.status (fields swapRequest) = PENDING))
            then ret AlreadyResolved
            else
              match requester_event swapRequest, recipient_event swapRequest with
              | Some requesterEvent, Some recipientEvent =>
                  let newStatus := if accept then ACCEPTED else REJECTED in
                  let requester_event_id :=
                    swapRequestSchema.requester_event_id (fields swapRequest) in
                  let recipient_event_id :=
                    swapRequestSchema.recipient_event_id (fields swapRequest) in
                  await _ <~ SwapRequest.save_status flt n newStatus in
                  await _ <~
                    (if accept then
                       let tempUserId := eventSchema.user_id requesterEvent in
                       Promise_all
                         (Event.save flt requester_event_id requesterEvent
                            (eventSchema.with_status BUSY
                               (eventSchema.with_user_id
                                  (eventSchema.user_id recipientEvent)
                                  requesterEvent)))
                         (Event.save flt recipient_event_id recipientEvent
                            (eventSchema.with_status BUSY
                               (eventSchema.with_user_id tempUserId
                                  recipientEvent)))
                     else
                       Promise_all
                         (Event.findByIdAndUpdate flt requester_event_id SWAPPABLE)
                         (Event.findByIdAndUpdate flt recipient_event_id SWAPPABLE)) in
                  await updatedRequest <~ SwapRequest.findById n in
                  ret (mkResponse 200 (DataRequest updatedRequest))
              | _, _ => ret EventsGone
              end
        end
    end.
End swap_routes.

(** ** Operations and reachable states *)

(** The state-changing operations of the API. *)
Inductive Op :=
  | CreateEvent (user : nat) (b : EventBody.t)
  | UpdateEvent (user : nat) (id : IdParam) (b : EventBody.t)
  | DeleteEvent (user : nat) (id : IdParam)
  | Propose (user : nat) (now : Z) (b : SwapBody.t)
  | Respond (user : nat) (id : IdParam) (accept : bool).

Definition exec (flt : Faults) (op : Op) : Db → Db * Response :=
  match op with
  | CreateEvent user b => create_event flt user b
  | UpdateEvent user id b => update_event flt user id b
  | DeleteEvent user id => delete_event flt user id
  | Propose user now b => propose flt user now b
  | Respond user id accept => respond flt user id accept
  end.

(** The states a healthy database goes through when the operations are
    handled one at a time, each handler running to its answer before the
    next one starts, and every operation satisfies [allowed].  Handlers that
    overlap are not runs of this relation; [overlapped] is such a
    schedule. *)
Inductive reachable_by (allowed : Op → Prop) : Db → Prop :=
  | reach_empty : reachable_by allowed empty_db
  | reach_step db op :
      reachable_by allowed db → allowed op →
      reachable_by allowed (exec no_faults op db).1.

Definition reachable : Db → Prop := reachable_by (λ _, True).

(** The caller of the create or update route writes [SWAP_PENDING] into
    the status of an event. *)
Definition supplies_pending (b : EventBody.t) : Prop :=
  truthy (EventBody.status b) = Some "SWAP_PENDING".

(** Operations that leave the lock status to the swap routes. *)
Definition lock_by_swap_only (op : Op) : Prop :=
  match op with
  | CreateEvent _ b | UpdateEvent _ _ b => ¬ supplies_pending b
  | _ => True
  end.

(** ** The lock invariant *)

Definition is_pending (r : swapRequestSchema.doc) : bool :=
  bool_decide (swapRequestSchema.status r = PENDING).

(** [r] names the event [n] as its requester event or its recipient event. *)
Definition references (n : nat) (r : swapRequestSchema.doc) : bool :=
  bool_decide (swapRequestSchema.requester_event_id r = n)
  || bool_decide (swapRequestSchema.recipient_event_id r = n).

(** The number of [PENDING] requests that reference the event [n]. *)
Definition pending_refs (db : Db) (n : nat) : nat :=
  length (List.filter (λ r, is_pending r && references n r) (swaprequests db)).

(** An event is [SWAP_PENDING] exactly when one [PENDING] request
    references it. *)
Definition lock_invariant (db : Db) : Prop :=
  ∀ n e, events db !! n = Some e →
    eventSchema.status e = SWAP_PENDING ↔ pending_refs db n = 1.

(** The inductive strengthening: ids below the counter, and the lock count
    of every stored event is 1 or 0 with its status. *)
Record consistent (db : Db) : Prop := mkConsistent {
  stored_below : ∀ n, is_Some (events db !! n) → n < next_event_id db;
  referenced_below : ∀ r, r ∈ swaprequests db →
    swapRequestSchema.requester_event_id r < next_event_id db ∧
    swapRequestSchema.recipient_event_id r < next_event_id db;
  lock_count : ∀ n e, events db !! n = Some e →
    pending_refs db n =
      if decide (eventSchema.status e = SWAP_PENDING) then 1 else 0
}.

(** A failure response of the API. *)
Definition is_failure (r : Response) : Prop := 400 ≤ code r.

(** The [createdAt] stamps of a listing, in the order returned. *)
Definition stamps (r : Response) : list Z :=
  match body r with
  | DataRequests rs => (λ p, swapRequestSchema.createdAt (fields p)) <$> rs
  | _ => []
  end.

(** Newest first. *)
Fixpoint descending (l : list Z) : bool :=
  match l with
  | x :: (y :: _) as l' => (y <=? x)%Z && descending l'
  | _ => true
  end.

(** ** Scenario states *)

Definition event_body (t : string) (s e : Z) (st : option string) : EventBody.t :=
  EventBody.mk (Some t) (Instant s) (Instant e) st.

Definition swap_body (mine theirs : nat) : SwapBody.t :=
  SwapBody.mk (Some (ObjectId mine)) None (Some (ObjectId theirs)) None.

Definition run (ops : list Op) : Db :=
  foldl (λ db op, (exec no_faults op db).1) empty_db ops.

(** User 1 owns event 0 and user 2 owns event 1, both [SWAPPABLE]. *)
Definition two_swappable : list Op :=
  [ CreateEvent 1 (event_body "gym" 1 2 (Some "SWAPPABLE"));
    CreateEvent 2 (event_body "dentist" 5 6 (Some "SWAPPABLE")) ].

(** ... and user 1 has proposed to swap them (request 0). *)
Definition one_pending : list Op :=
  two_swappable ++ [ Propose 1 10 (swap_body 0 1) ].

(** ... and user 2 has accepted (request 0 is [ACCEPTED]). *)
Definition one_accepted : list Op :=
  one_pending ++ [ Respond 2 (ObjectId 0) true ].

(** ... or user 2 has rejected and user 1 has proposed again: request 0,
    created at 10, is [REJECTED] and request 1, created at 20, is
    [PENDING]. *)
Definition proposed_twice : list Op :=
  one_pending ++ [ Respond 2 (ObjectId 0) false; Propose 1 20 (swap_body 0 1) ].

(** User 1 owns both event 0 and event 1, both [SWAPPABLE]. *)
Definition same_owner : list Op :=
  [ CreateEvent 1 (event_body "gym" 1 2 (Some "SWAPPABLE"));
    CreateEvent 1 (event_body "dentist" 5 6 (Some "SWAPPABLE")) ].

(** A database that fails the writes to event 1 only. *)
Definition event_1_unwritable : Faults :=
  λ t, match t with EventDoc 1 => true | _ => false end.

(** User 1 has created an event and named its status [SWAP_PENDING]. *)
Definition created_pending : list Op :=
  [ CreateEvent 1 (event_body "gym" 1 2 (Some "SWAP_PENDING")) ].


(** User 1 owns event 0, [BUSY] by default, and user 2 owns event 1,
    [SWAPPABLE]. *)
Definition one_busy : list Op :=
  [ CreateEvent 1 (event_body "gym" 1 2 None);
    CreateEvent 2 (event_body "dentist" 5 6 (Some "SWAPPABLE")) ].


(** Any further run, each step on a database with its own faults. *)
Definition run_from (db : Db) (steps : list (Faults * Op)) : Db :=
  foldl (λ db s, (exec s.1 s.2 db).1) db steps.


(** ** The listing routes of [routes/events.js] and the routes of [server.js] *)

Section sort_asc.
Context {A : Type} (key : A → bson).

(** [x] goes in front of the first document whose key is not smaller than
    its own: documents with equal keys keep their order. *)
Fixpoint insert_asc (x : A) (l : list A) : list A :=
  match l with
  | [] => [x]
  | y :: l' => if bson_ltb (key y) (key x) then y :: insert_asc x l'
               else x :: l
  end.

(** [.sort({ path: 1 })]: ascending by [key], stable. *)
Definition sort_asc (l : list A) : list A := foldr insert_asc [] l.
End sort_asc.

(** Queries over the event collection. *)
Module EventQuery.
Import eventSchema.

(** The value of a path of a stored event: the five schema paths and
    [_id]; any other name is a missing field. *)
Definition get (path : string) (e : nat * doc) : bson :=
  if String.eqb path "_id" then BObjectId e.1
  else if String.eqb path "user_id" then BObjectId (user_id e.2)
  else if String.eqb path "title" then BString (title e.2)
  else if String.eqb path "start_time" then BDate (start_time e.2)
  else if String.eqb path "end_time" then BDate (end_time e.2)
  else if String.eqb path "status" then BString (status_name (status e.2))
  else BNull.

(** [Event.find(filter).sort({ path: 1 })]; documents with equal keys come
    in the enumeration order of the store. *)
Definition find (filter : doc → bool) (sort_path : string)
    : M (list (nat * doc)) :=
  λ db, (db, inr (sort_asc (get sort_path)
                    (List.filter (λ e, filter e.2) (map_to_list (events db))))).
End EventQuery.

(** A listing route answers [{ data: events }] with status 200, or the
    500 failure of its [catch]. *)
Definition listing (what : string) (m : M (list (nat * eventSchema.doc)))
    (db : Db) : Db * (Response + list (nat * eventSchema.doc)) :=
  match m db with
  | (db', inr es) => (db', inr es)
  | (db', inl e) => (db', inl (mkResponse 500 (Failure what e)))
  end.

(** [router.get('/')]: the events of [user], earliest first. *)
Definition list_events (user : nat) :=
  listing "Failed to fetch events"
    (EventQuery.find (λ e, bool_decide (eventSchema.user_id e = user))
       "start_time").

(** [router.get('/swappable')] and [app.get('/api/swappable-slots')]: the
    marketplace, the [SWAPPABLE] events of everybody but [user], earliest
    first.  (The owner's name and email, which the routes populate, are
    not part of the store modelled here.) *)
Definition swappable_events (user : nat) :=
  listing "Failed to fetch swappable events"
    (EventQuery.find
       (λ e, bool_decide (eventSchema.status e = SWAPPABLE)
             && negb (bool_decide (eventSchema.user_id e = user)))
       "start_time").

(** [router.get('/my-swappable')]: the [SWAPPABLE] events of [user]. *)
Definition my_swappable_events (user : nat) :=
  listing "Failed to fetch your swappable events"
    (EventQuery.find
       (λ e, bool_decide (eventSchema.user_id e = user)
             && bool_decide (eventSchema.status e = SWAPPABLE))
       "start_time").

(** [app.post('/api/swap-request')] of [server.js]: the create route under
    its required name.  It reads [mySlotId] and [theirSlotId] only. *)
Definition swap_request (flt : Faults) (user : nat) (now : Z) (b : SwapBody.t)
    : Db → Db * Response :=
  handler "Failed to create swap request"
    match SwapBody.mySlotId b, SwapBody.theirSlotId b with
    | Some mySlotId, Some theirSlotId =>
        await found <~ Promise_all (Event.findById mySlotId)
                                   (Event.findById theirSlotId) in
        match mySlotId, theirSlotId, found with
        | ObjectId mine, ObjectId theirs, (Some requesterEvent, Some recipientEvent) =>
            if negb (bool_decide (eventSchema.user_id requesterEvent = user))
            then ret NotOwner
            else if negb (bool_decide (eventSchema.status requesterEvent = SWAPPABLE))
                    || negb (bool_decide (eventSchema.status recipientEvent = SWAPPABLE))
            then ret NotSwappable
            else
              await SwapReq <~
                SwapRequest.create flt user mine
                  (eventSchema.user_id recipientEvent) theirs now in
              await _ <~ Promise_all
                           (Event.findByIdAndUpdate flt mine SWAP_PENDING)
                           (Event.findByIdAndUpdate flt theirs SWAP_PENDING) in
              await populatedRequest <~ SwapRequest.findById SwapReq in
              ret (mkResponse 201 (DataRequest populatedRequest))
        | _, _, _ => ret EventsNotFound
        end
    | _, _ => ret MissingIds
    end.

(** ** The lock bound *)

(** What every reachable state keeps, whatever statuses callers supply:
    ids below the counter, and an event is referenced by at most one
    [PENDING] request, and by none unless it is [SWAP_PENDING]. *)
Record bounded (db : Db) : Prop := mkBounded {
  bounded_stored : ∀ n, is_Some (events db !! n) → n < next_event_id db;
  bounded_referenced : ∀ r, r ∈ swaprequests db →
    swapRequestSchema.requester_event_id r < next_event_id db ∧
    swapRequestSchema.recipient_event_id r < next_event_id db;
  bounded_count : ∀ n e, events db !! n = Some e →
    pending_refs db n ≤
      if decide (eventSchema.status e = SWAP_PENDING) then 1 else 0
}.

(** The fields of a request that identify it: everything but the status. *)
Definition identity (r : swapRequestSchema.doc) : nat * nat * nat * nat * Z :=
  (swapRequestSchema.requester_id r, swapRequestSchema.requester_event_id r,
   swapRequestSchema.recipient_id r, swapRequestSchema.recipient_event_id r,
   swapRequestSchema.createdAt r).

(** An accepted answer is the only operation meant to move ownership. *)
Definition is_accept (op : Op) : Prop :=
  match op with Respond _ _ true => True | _ => False end.

(** The events a query returns: each matching stored event once, earliest
    first; the store is not changed. *)
Definition lists (filter : eventSchema.doc → bool)
    (out : Db * (Response + list (nat * eventSchema.doc))) (db : Db) : Prop :=
  ∃ es, out = (db, inr es) ∧
        NoDup es ∧
        StronglySorted
          (λ a b, (eventSchema.start_time a.2 ≤ eventSchema.start_time b.2)%Z) es ∧
        ∀ n e, (n, e) ∈ es ↔ events db !! n = Some e ∧ filter e = true.

(** ** Overlapping proposals *)

(** The create route up to its first write, lines 48 to 73: the reads and
    the checks.  It changes nothing and yields either the refusal the route
    answers or what the route goes on with: the two event ids and the
    recipient, the owner of the other event as read. *)
Definition propose_checks (user : nat) (b : SwapBody.t)
    : M (Response + nat * nat * nat) :=
  match or_else (SwapBody.mySlotId b) (SwapBody.requester_event_id b),
        or_else (SwapBody.theirSlotId b) (SwapBody.recipient_event_id b) with
  | Some mySlotId, Some theirSlotId =>
      await found <~ Promise_all (Event.findById mySlotId)
                                 (Event.findById theirSlotId) in
      match mySlotId, theirSlotId, found with
      | ObjectId mine, ObjectId theirs, (Some requesterEvent, Some recipientEvent) =>
          if negb (bool_decide (eventSchema.user_id requesterEvent = user))
          then ret (inl NotOwner)
          else if negb (bool_decide (eventSchema.status requesterEvent = SWAPPABLE))
                  || negb (bool_decide (eventSchema.status recipientEvent = SWAPPABLE))
          then ret (inl NotSwappable)
          else ret (inr (mine, eventSchema.user_id recipientEvent, theirs))
      | _, _, _ => ret (inl EventsNotFound)
      end
  | _, _ => ret (inl MissingIds)
  end.

(** The create route from its first write on, lines 75 to 98; nothing is
    checked again. *)
Definition propose_rest (flt : Faults) (user : nat) (now : Z)
    (checked : Response + nat * nat * nat) : M Response :=
  match checked with
  | inl refusal => ret refusal
  | inr (mine, recipient, theirs) =>
      await swapRequest <~
        SwapRequest.create flt user mine recipient theirs now in
      await _ <~ Promise_all
                   (Event.findByIdAndUpdate flt mine SWAP_PENDING)
                   (Event.findByIdAndUpdate flt theirs SWAP_PENDING) in
      await populatedRequest <~ SwapRequest.findById swapRequest in
      ret (mkResponse 201 (DataRequest populatedRequest))
  end.

(** A handler that was suspended at an [await] goes on with what it had
    read, or with the exception it had met. *)
Definition resume {A B} (read : exn + A) (k : A → M B) : M B :=
  match read with
  | inl e => throw e
  | inr a => k a
  end.

(** Two create requests whose handlers overlap: each handler is suspended
    at the [await] of its first write, so both run their reads and checks
    before either writes.  The answers are those of the first and of the
    second request. *)
Definition overlapped (flt : Faults)
    (user1 : nat) (now1 : Z) (b1 : SwapBody.t)
    (user2 : nat) (now2 : Z) (b2 : SwapBody.t)
    (db : Db) : Db * (Response * Response) :=
  let '(db, read1) := propose_checks user1 b1 db in
  let '(db, read2) := propose_checks user2 b2 db in
  let '(db, answer1) :=
    handler "Failed to create swap request"
      (resume read1 (propose_rest flt user1 now1)) db in
  let '(db, answer2) :=
    handler "Failed to create swap request"
      (resume read2 (propose_rest flt user2 now2)) db in
  (db, (answer1, answer2)).

(** Users 1, 2 and 3 own the events 0, 1 and 2, all [SWAPPABLE]. *)
Definition three_swappable : list Op :=
  two_swappable ++ [ CreateEvent 3 (event_body "run" 7 8 (Some "SWAPPABLE")) ].

(** What an accepted swap assigns to a loaded event: the owner of the
    other event and the status [BUSY]. *)
Definition exchanged (new_owner : nat) (e : eventSchema.doc) : eventSchema.doc :=
  eventSchema.with_status BUSY (eventSchema.with_user_id new_owner e).

(** The answer sends a write to an event: a rejection always does
    ([findByIdAndUpdate]), an acceptance only when the exchange modifies the
    loaded document ([save]). *)
Definition sends_write (accept : bool) (new_owner : nat)
    (loaded : eventSchema.doc) : Prop :=
  accept = false ∨ exchanged new_owner loaded ≠ loaded.

(** Case analysis over a handler body. *)
Ltac crunch :=
  repeat first [ case_match
               | progress unfold ret, throw in *
               | progress simplify_eq/= ].

(** Lookups in an updated event collection. *)
Ltac lookups :=
  simpl in *;
  repeat first
    [ progress rewrite ?lookup_alter, ?lookup_delete, ?lookup_insert in *
    | case_decide
    | progress simplify_eq/=
    | match goal with
      | H : _ <$> ?o = Some _ |- _ =>
          let E := fresh in destruct o eqn:E; simpl in H
      end ].

(** ** Running the swap routes *)

Section propose_facts.
Context (user : nat) (now : Z) (b : SwapBody.t) (a c : nat)
        (ea ec : eventSchema.doc) (db : Db).
Hypothesis Hmine :
  or_else (SwapBody.mySlotId b) (SwapBody.requester_event_id b) = Some (ObjectId a).
Hypothesis Htheirs :
  or_else (SwapBody.theirSlotId b) (SwapBody.recipient_event_id b) = Some (ObjectId c).
Hypothesis Ha : events db !! a = Some ea.
Hypothesis Hc : events db !! c = Some ec.

Lemma propose_not_owner flt :
  eventSchema.user_id ea ≠ user → propose flt user now b db = (db, NotOwner).
Proof using Hmine Htheirs Ha Hc.
  intros Hne. unfold propose. rewrite Hmine, Htheirs.
  unfold handler, bind, Promise_all, Event.findById. rewrite Ha, Hc.
  rewrite bool_decide_eq_false_2 by done. reflexivity.
Qed.

Lemma propose_not_swappable flt :
  eventSchema.user_id ea = user →
  eventSchema.status ea ≠ SWAPPABLE ∨ eventSchema.status ec ≠ SWAPPABLE →
  propose flt user now b db = (db, NotSwappable).
Proof using Hmine Htheirs Ha Hc.
  intros Hu Hst. unfold propose. rewrite Hmine, Htheirs.
  unfold handler, bind, Promise_all, Event.findById. rewrite Ha, Hc.
  rewrite bool_decide_eq_true_2 by done. simpl.
  destruct Hst as [Hst|Hst].
  - rewrite (bool_decide_eq_false_2 _ Hst). reflexivity.
  - rewrite (bool_decide_eq_false_2 _ Hst), orb_true_r. reflexivity.
Qed.

Lemma propose_success :
  eventSchema.user_id ea = user →
  eventSchema.status ea = SWAPPABLE → eventSchema.status ec = SWAPPABLE →
  let r := swapRequestSchema.mk user a (eventSchema.user_id ec) c PENDING now in
  let db' := mkDb (alter (eventSchema.with_status SWAP_PENDING) c
                     (alter (eventSchema.with_status SWAP_PENDING) a (events db)))
                  (next_event_id db) (swaprequests db ++ [r]) in
  propose no_faults user now b db =
    (db', mkResponse 201
            (DataRequest (Some (SwapRequest.populate db'
                                  (length (swaprequests db), r))))).
Proof using Hmine Htheirs Ha Hc.
  intros Hu Hsa Hsc. unfold propose. rewrite Hmine, Htheirs.
  unfold handler, bind, Promise_all, Event.findById. rewrite Ha, Hc.
  rewrite !bool_decide_eq_true_2 by done. simpl.
  unfold SwapRequest.findById. simpl.
  rewrite lookup_app_r, Nat.sub_diag by done. reflexivity.
Qed.
End propose_facts.

Section respond_facts.
Context (user n : nat) (accept : bool) (r : swapRequestSchema.doc) (db : Db).
Hypothesis Hr : swaprequests db !! n = Some r.

Lemma respond_forbidden flt :
  swapRequestSchema.recipient_id r ≠ user →
  respond flt user (ObjectId n) accept db = (db, Forbidden).
Proof using Hr.
  intros Hne. unfold respond, handler, bind, SwapRequest.findById.
  rewrite Hr. simpl. rewrite bool_decide_eq_false_2 by done. reflexivity.
Qed.

Lemma respond_resolved flt :
  swapRequestSchema.recipient_id r = user →
  swapRequestSchema.status r ≠ PENDING →
  respond flt user (ObjectId n) accept db = (db, AlreadyResolved).
Proof using Hr.
  intros Hu Hst. unfold respond, handler, bind, SwapRequest.findById.
  rewrite Hr. simpl. rewrite bool_decide_eq_true_2 by done.
  rewrite bool_decide_eq_false_2 by done. reflexivity.
Qed.

Lemma respond_events_gone flt :
  swapRequestSchema.recipient_id r = user →
  swapRequestSchema.status r = PENDING →
  events db !! swapRequestSchema.requester_event_id r = None ∨
  events db !! swapRequestSchema.recipient_event_id r = None →
  respond flt user (ObjectId n) accept db = (db, EventsGone).
Proof using Hr.
  intros Hu Hst Hgone. unfold respond, handler, bind, SwapRequest.findById.
  rewrite Hr. simpl. rewrite !bool_decide_eq_true_2 by done. simpl.
  destruct Hgone as [-> | ->]; [done|].
  by destruct (events db !! _).
Qed.

Context (ea ec : eventSchema.doc).
Hypothesis Hu : swapRequestSchema.recipient_id r = user.
Hypothesis Hst : swapRequestSchema.status r = PENDING.
Hypothesis Ha : events db !! swapRequestSchema.requester_event_id r = Some ea.
Hypothesis Hc : events db !! swapRequestSchema.recipient_event_id r = Some ec.

(** The request write comes first; a failure there stops the handler
    before anything changed. *)
Lemma respond_request_write_fails flt :
  flt (RequestDoc n) = true →
  respond flt user (ObjectId n) accept db =
    (db, mkResponse 500 (Failure "Failed to respond to swap request" StorageError)).
Proof using Hr Hu Hst Ha Hc.
  intros Hf. unfold respond, handler, bind, SwapRequest.findById.
  rewrite Hr. simpl. rewrite !bool_decide_eq_true_2 by done. simpl.
  rewrite Ha, Hc. unfold SwapRequest.save_status. rewrite Hf. reflexivity.
Qed.
End respond_facts.

Lemma write_modified_loaded loaded assigned :
  write_modified loaded assigned loaded = assigned.
Proof.
  destruct loaded, assigned. unfold write_modified. simpl.
  repeat case_decide; congruence.
Qed.

Lemma write_modified_assigned loaded assigned :
  write_modified loaded assigned assigned = assigned.
Proof.
  destruct loaded, assigned. unfold write_modified. simpl.
  by repeat case_decide.
Qed.

Lemma with_events_alter_ext (f g : eventSchema.doc → eventSchema.doc) n db stored :
  events db !! n = Some stored → g stored = f stored →
  with_events (alter g n) db = with_events (alter f n) db.
Proof.
  intros Hn Hfg. destruct db as [ev nx rq]. unfold with_events. simpl in *.
  f_equal. apply map_eq. intros m. rewrite !lookup_alter.
  case_decide; [subst m; rewrite Hn; simpl; by rewrite Hfg|done].
Qed.

Lemma with_events_alter_id (f : eventSchema.doc → eventSchema.doc) n db stored :
  events db !! n = Some stored → f stored = stored →
  with_events (alter f n) db = db.
Proof.
  intros Hn Hf. destruct db as [ev nx rq]. unfold with_events. simpl in *.
  f_equal. apply map_eq. intros m. rewrite lookup_alter.
  case_decide; [subst m; rewrite Hn; simpl; by rewrite Hf|done].
Qed.

(** A [save] as a function on the store: a write is sent exactly when the
    document was modified. *)
Lemma save_run flt n loaded assigned stored f db :
  events db !! n = Some stored →
  write_modified loaded assigned stored = f stored →
  (assigned = loaded → f stored = stored) →
  Event.save flt n loaded assigned db =
    if bool_decide (assigned ≠ loaded) && flt (EventDoc n)
    then (db, inl StorageError)
    else (with_events (alter f n) db, inr tt).
Proof.
  intros Hn Hw Hid. unfold Event.save. case_decide as Heq.
  - rewrite bool_decide_eq_false_2 by tauto. simpl.
    by rewrite (with_events_alter_id f n db stored Hn (Hid Heq)).
  - rewrite bool_decide_eq_true_2 by done. simpl.
    destruct (flt (EventDoc n)); [done|].
    by rewrite (with_events_alter_ext f _ n db stored Hn Hw).
Qed.

Section respond_writes.
Context (flt : Faults) (user n : nat) (accept : bool)
        (r : swapRequestSchema.doc) (ea ec : eventSchema.doc) (db : Db).
Hypothesis Hr : swaprequests db !! n = Some r.
Hypothesis Hu : swapRequestSchema.recipient_id r = user.
Hypothesis Hst : swapRequestSchema.status r = PENDING.
Hypothesis Ha : events db !! swapRequestSchema.requester_event_id r = Some ea.
Hypothesis Hc : events db !! swapRequestSchema.recipient_event_id r = Some ec.
Hypothesis Hreq : flt (RequestDoc n) = false.

(** The writes of an answer that gets past the checks.  [wa] and [wc] say
    whether a write is sent to the requester event and to the recipient
    event: always on a rejection, and on an acceptance only when the
    exchange changes the owner or the status of that event. *)
Lemma respond_writes :
  let a := swapRequestSchema.requester_event_id r in
  let c := swapRequestSchema.recipient_event_id r in
  let st := if accept then ACCEPTED else REJECTED in
  let fa := if accept
            then λ e, eventSchema.with_status BUSY
                        (eventSchema.with_user_id (eventSchema.user_id ec) e)
            else eventSchema.with_status SWAPPABLE in
  let fc := if accept
            then λ e, eventSchema.with_status BUSY
                        (eventSchema.with_user_id (eventSchema.user_id ea) e)
            else eventSchema.with_status SWAPPABLE in
  let wa := if accept then bool_decide (fa ea ≠ ea) else true in
  let wc := if accept then bool_decide (fc ec ≠ ec) else true in
  let db1 := with_swaprequests (alter (swapRequestSchema.with_status st) n) db in
  let db2 := if wa && flt (EventDoc a) then db1
             else with_events (alter fa a) db1 in
  let db3 := if wc && flt (EventDoc c) then db2
             else with_events (alter fc c) db2 in
  respond flt user (ObjectId n) accept db =
    (db3, if wa && flt (EventDoc a) || wc && flt (EventDoc c)
          then mkResponse 500
                 (Failure "Failed to respond to swap request" StorageError)
          else mkResponse 200
                 (DataRequest
                    (Some (SwapRequest.populate db3
                             (n, swapRequestSchema.with_status st r))))).
Proof using Hr Hu Hst Ha Hc Hreq.
  unfold respond, handler, bind, SwapRequest.findById.
  rewrite Hr. simpl. rewrite !bool_decide_eq_true_2 by done. simpl.
  rewrite Ha, Hc. unfold SwapRequest.save_status. rewrite Hreq.
  assert (Hn : ∀ f, alter f n (swaprequests db) !! n = Some (f r)).
  { intros f. rewrite list_lookup_alter_eq, Hr. done. }
  destruct accept; cycle 1.
  { unfold Promise_all, Event.findByIdAndUpdate; simpl;
      destruct (flt (EventDoc (swapRequestSchema.requester_event_id r)));
      destruct (flt (EventDoc (swapRequestSchema.recipient_event_id r)));
      simpl; rewrite ?Hn; reflexivity. }
  set (a := swapRequestSchema.requester_event_id r) in *.
  set (c := swapRequestSchema.recipient_event_id r) in *.
  set (fa := λ e, eventSchema.with_status BUSY
                    (eventSchema.with_user_id (eventSchema.user_id ec) e)).
  set (fc := λ e, eventSchema.with_status BUSY
                    (eventSchema.with_user_id (eventSchema.user_id ea) e)).
  set (db1 := with_swaprequests (alter (swapRequestSchema.with_status ACCEPTED) n) db).
  unfold Promise_all.
  change (eventSchema.with_status BUSY
            (eventSchema.with_user_id (eventSchema.user_id ec) ea))
    with (fa ea).
  change (eventSchema.with_status BUSY
            (eventSchema.with_user_id (eventSchema.user_id ea) ec))
    with (fc ec).
  rewrite (save_run flt a ea (fa ea) ea fa db1 Ha (write_modified_loaded _ _)
             (λ H, H)).
  set (db2 := if bool_decide (fa ea ≠ ea) && flt (EventDoc a) then db1
              else with_events (alter fa a) db1).
  assert (∃ sc, events db2 !! c = Some sc ∧
                write_modified ec (fc ec) sc = fc sc ∧
                (fc ec = ec → fc sc = sc)) as (sc & Hsc & Hw & Hid).
  { destruct (decide (a = c)) as [Hac|Hac].
    - assert (ea = ec) as <- by congruence.
      assert (events db2 !! c = Some ea ∨ events db2 !! c = Some (fa ea))
        as [H|H].
      { unfold db2. destruct (_ && _); [left; by rewrite <- Hac|right].
        simpl. rewrite <- Hac, lookup_alter_eq. fold a. by rewrite Ha. }
      + exists ea. split_and!; [done|apply write_modified_loaded|done].
      + exists (fa ea). split_and!; [done| |].
        * change (fa ea) with (fc ea). apply write_modified_assigned.
        * intros _. by destruct ea.
    - exists ec. split_and!; [|apply write_modified_loaded|done].
      unfold db2. destruct (_ && _); [done|]. simpl.
      by rewrite lookup_alter_ne. }
  destruct (bool_decide (fa ea ≠ ea) && flt (EventDoc a)) eqn:Ea; simpl.
  - rewrite (save_run flt c ec (fc ec) sc fc db1); try done.
    subst db2.
    destruct (bool_decide (fc ec ≠ ec) && flt (EventDoc c)); reflexivity.
  - subst db2. rewrite (save_run flt c ec (fc ec) sc fc _ Hsc Hw Hid).
    destruct (bool_decide (fc ec ≠ ec) && flt (EventDoc c)); simpl;
      [reflexivity|].
    by rewrite Hn.
Qed.

End respond_writes.

(** On a healthy database every write goes through. *)
Lemma respond_healthy (user n : nat) (accept : bool)
    (r : swapRequestSchema.doc) (ea ec : eventSchema.doc) (db : Db) :
  swaprequests db !! n = Some r →
  swapRequestSchema.recipient_id r = user →
  swapRequestSchema.status r = PENDING →
  events db !! swapRequestSchema.requester_event_id r = Some ea →
  events db !! swapRequestSchema.recipient_event_id r = Some ec →
  let a := swapRequestSchema.requester_event_id r in
  let c := swapRequestSchema.recipient_event_id r in
  let st := if accept then ACCEPTED else REJECTED in
  let fa := if accept
            then λ e, eventSchema.with_status BUSY
                        (eventSchema.with_user_id (eventSchema.user_id ec) e)
            else eventSchema.with_status SWAPPABLE in
  let fc := if accept
            then λ e, eventSchema.with_status BUSY
                        (eventSchema.with_user_id (eventSchema.user_id ea) e)
            else eventSchema.with_status SWAPPABLE in
  let db1 := with_swaprequests (alter (swapRequestSchema.with_status st) n) db in
  let db2 := if no_faults (EventDoc a) then db1 else with_events (alter fa a) db1 in
  let db3 := if no_faults (EventDoc c) then db2 else with_events (alter fc c) db2 in
  respond no_faults user (ObjectId n) accept db =
    (db3, if no_faults (EventDoc a) || no_faults (EventDoc c)
          then mkResponse 500
                 (Failure "Failed to respond to swap request" StorageError)
          else mkResponse 200
                 (DataRequest
                    (Some (SwapRequest.populate db3
                             (n, swapRequestSchema.with_status st r))))).
Proof.
  intros Hr Hu Hst Ha Hc.
  rewrite (respond_writes no_faults user n accept r ea ec db Hr Hu Hst Ha Hc
             eq_refl).
  cbv zeta. unfold no_faults. by rewrite !andb_false_r.
Qed.

(** ** Trimming titles *)

(** White space goes at both ends and stays inside; the no-break space
    U+00A0 (bytes 194 160) and the ideographic space U+3000 (bytes 227 128
    128) are white space as well, so a title made of them only is blank. *)
Lemma trim_examples :
  trim "  gym class	" = "gym class" ∧
  trim (String (ascii_of_nat 194) (String (ascii_of_nat 160) "")) = "" ∧
  trim (String (ascii_of_nat 227) (String (ascii_of_nat 128)
          (String (ascii_of_nat 128) "gym"))) = "gym" ∧
  cast_title (String (ascii_of_nat 194) (String (ascii_of_nat 160) "")) = None.
Proof. vm_compute. done. Qed.

(** ** Running the event routes *)

Lemma parse_status_name st : parse_status (status_name st) = Some st.
Proof. by destruct st. Qed.

Lemma parse_status_inv s st : parse_status s = Some st → s = status_name st.
Proof.
  unfold parse_status. intros H.
  destruct (String.eqb_spec s "BUSY") as [->|_]; [by inversion H|].
  destruct (String.eqb_spec s "SWAPPABLE") as [->|_]; [by inversion H|].
  destruct (String.eqb_spec s "SWAP_PENDING") as [->|_]; [by inversion H|].
  discriminate.
Qed.

Lemma truthy_Some s t : truthy s = Some t → s = Some t ∧ t ≠ "".
Proof.
  destruct s as [s|]; [|done]. simpl.
  destruct (String.eqb_spec s "") as [->|Hne]; [done|].
  intros [= <-]. done.
Qed.


Section create_facts.
Context (user : nat) (b : EventBody.t) (db : Db).


(** Whatever the body, the route either changes nothing or stores one
    new event under the fresh id, with the status the caller supplied
    ([BUSY] when none was). *)
Lemma create_event_cases :
  (create_event no_faults user b db).1 = db ∨
  ∃ d, parse_status (default "BUSY" (truthy (EventBody.status b)))
         = Some (eventSchema.status d) ∧
       (create_event no_faults user b db).1 =
         mkDb (<[next_event_id db := d]> (events db))
              (S (next_event_id db)) (swaprequests db).
Proof.
  unfold create_event.
  destruct (truthy (EventBody.title b)) as [t|]; [|by left].
  destruct (EventBody.start_time b) as [| |s]; [by left| |];
    (destruct (EventBody.end_time b) as [| |e]; [by left| |]);
    simpl; try destruct (e <=? s)%Z; try (by left);
    unfold handler, bind, Event.create;
    destruct (cast_title t) as [t'|]; try (by left);
    simpl; try (by left).
  destruct (parse_status _) as [st|] eqn:Hst; [|by left].
  right. by eexists (eventSchema.mk _ _ _ _ _).
Qed.
End create_facts.

Lemma update_changes_status b f e :
  update_changes b = Some f →
  eventSchema.status (f e) =
    match truthy (EventBody.status b) with
    | Some s => default (eventSchema.status e) (parse_status s)
    | None => eventSchema.status e
    end.
Proof.
  unfold update_changes, compose_changes. simpl.
  destruct (truthy (EventBody.title b)) as [t|];
    [destruct (cast_title t); simpl; [|done]|];
    (destruct (EventBody.start_time b); simpl; try done);
    (destruct (EventBody.end_time b); simpl; try done);
    (destruct (truthy (EventBody.status b)) as [sv|];
       [destruct (parse_status sv); simpl; [|done]|]);
    intros [= <-]; reflexivity.
Qed.

Section update_facts.
Context (user n : nat) (b : EventBody.t) (e : eventSchema.doc) (db : Db).
Hypothesis He : events db !! n = Some e.
Hypothesis Hu : eventSchema.user_id e = user.

Lemma update_event_locked flt :
  eventSchema.status e = SWAP_PENDING →
  update_event flt user (ObjectId n) b db =
    (db, mkResponse 400 (Error "Cannot modify events with pending swaps")).
Proof using He Hu.
  intros Hst. unfold update_event, handler, bind, Event.findOne.
  rewrite He. rewrite decide_True by done. simpl.
  rewrite decide_True by done. reflexivity.
Qed.

Lemma update_event_success f :
  eventSchema.status e ≠ SWAP_PENDING → update_changes b = Some f →
  update_event no_faults user (ObjectId n) b db =
    (with_events (alter f n) db, mkResponse 200 (DataEvent n (f e))).
Proof using He Hu.
  intros Hst Hf. unfold update_event, handler, bind, Event.findOne.
  rewrite He. rewrite decide_True by done. simpl.
  rewrite decide_False by done. rewrite Hf.
  rewrite (save_run no_faults n e (f e) e f db He (write_modified_loaded _ _)
             (λ H, H)).
  unfold no_faults. by rewrite andb_false_r.
Qed.

Lemma delete_event_success :
  delete_event no_faults user (ObjectId n) db =
    (with_events (delete n) db,
     mkResponse 200 (Message "Event deleted successfully")).
Proof using He Hu.
  unfold delete_event, handler, bind, Event.findOne.
  rewrite He. rewrite decide_True by done. reflexivity.
Qed.
End update_facts.

Lemma update_event_cases user id b db :
  (update_event no_faults user id b db).1 = db ∨
  ∃ n e f, events db !! n = Some e ∧ eventSchema.status e ≠ SWAP_PENDING ∧
           update_changes b = Some f ∧
           (update_event no_faults user id b db).1 = with_events (alter f n) db.
Proof.
  destruct id as [|n]; [by left|].
  destruct (events db !! n) as [e|] eqn:He; cycle 1.
  { left. unfold update_event, handler, bind, Event.findOne. by rewrite He. }
  destruct (decide (eventSchema.user_id e = user)) as [Hu|Hu]; cycle 1.
  { left. unfold update_event, handler, bind, Event.findOne.
    rewrite He. by rewrite decide_False. }
  destruct (decide (eventSchema.status e = SWAP_PENDING)) as [Hst|Hst].
  { left. by rewrite (update_event_locked _ _ _ _ _ He Hu). }
  destruct (update_changes b) as [f|] eqn:Hf.
  - right. exists n, e, f. by rewrite (update_event_success _ _ _ _ _ He Hu f).
  - left. unfold update_event, handler, bind, Event.findOne.
    rewrite He. rewrite decide_True by done. simpl.
    rewrite decide_False by done. by rewrite Hf.
Qed.

Lemma delete_event_cases user id db :
  (delete_event no_faults user id db).1 = db ∨
  ∃ n, (delete_event no_faults user id db).1 = with_events (delete n) db.
Proof.
  destruct id as [|n]; [by left|].
  unfold delete_event, handler, bind, Event.findOne.
  destruct (events db !! n) as [e|]; [|by left].
  destruct (decide _); [|by left]. right. by exists n.
Qed.

(** ** Every outcome of the swap routes on a healthy database *)

Lemma propose_cases user now b db :
  (propose no_faults user now b db).1 = db ∨
  ∃ a c ea ec,
    events db !! a = Some ea ∧ events db !! c = Some ec ∧
    eventSchema.status ea = SWAPPABLE ∧ eventSchema.status ec = SWAPPABLE ∧
    (propose no_faults user now b db).1 =
      mkDb (alter (eventSchema.with_status SWAP_PENDING) c
              (alter (eventSchema.with_status SWAP_PENDING) a (events db)))
           (next_event_id db)
           (swaprequests db ++
              [swapRequestSchema.mk user a (eventSchema.user_id ec) c PENDING now]).
Proof.
  destruct (or_else (SwapBody.mySlotId b) (SwapBody.requester_event_id b))
    as [mine|] eqn:Hmine; cycle 1.
  { left. unfold propose. by rewrite Hmine. }
  destruct (or_else (SwapBody.theirSlotId b) (SwapBody.recipient_event_id b))
    as [theirs|] eqn:Htheirs; cycle 1.
  { left. unfold propose. by rewrite Hmine, Htheirs. }
  destruct mine as [|a].
  { left. unfold propose. rewrite Hmine, Htheirs. by destruct theirs. }
  destruct theirs as [|c].
  { left. unfold propose. by rewrite Hmine, Htheirs. }
  destruct (events db !! a) as [ea|] eqn:Ha; cycle 1.
  { left. unfold propose. rewrite Hmine, Htheirs.
    unfold handler, bind, Promise_all, Event.findById. rewrite Ha.
    by destruct (events db !! c). }
  destruct (events db !! c) as [ec|] eqn:Hc; cycle 1.
  { left. unfold propose. rewrite Hmine, Htheirs.
    unfold handler, bind, Promise_all, Event.findById. by rewrite Ha, Hc. }
  destruct (decide (eventSchema.user_id ea = user)) as [Hu|Hu]; cycle 1.
  { left. by rewrite (propose_not_owner _ _ _ _ _ _ _ _ Hmine Htheirs Ha Hc). }
  destruct (decide (eventSchema.status ea = SWAPPABLE)) as [Hsa|Hsa]; cycle 1.
  { left. rewrite (propose_not_swappable _ _ _ _ _ _ _ _ Hmine Htheirs Ha Hc);
      auto. }
  destruct (decide (eventSchema.status ec = SWAPPABLE)) as [Hsc|Hsc]; cycle 1.
  { left. rewrite (propose_not_swappable _ _ _ _ _ _ _ _ Hmine Htheirs Ha Hc);
      auto. }
  right. exists a, c, ea, ec.
  by rewrite (propose_success _ _ _ _ _ _ _ _ Hmine Htheirs Ha Hc).
Qed.

Lemma respond_cases user id accept db :
  (respond no_faults user id accept db).1 = db ∨
  ∃ n r ea ec fa fc,
    swaprequests db !! n = Some r ∧ swapRequestSchema.status r = PENDING ∧
    events db !! swapRequestSchema.requester_event_id r = Some ea ∧
    events db !! swapRequestSchema.recipient_event_id r = Some ec ∧
    (∀ e, eventSchema.status (fa e) ≠ SWAP_PENDING) ∧
    (∀ e, eventSchema.status (fc e) ≠ SWAP_PENDING) ∧
    (respond no_faults user id accept db).1 =
      mkDb (alter fc (swapRequestSchema.recipient_event_id r)
              (alter fa (swapRequestSchema.requester_event_id r) (events db)))
           (next_event_id db)
           (alter (swapRequestSchema.with_status
                     (if accept then ACCEPTED else REJECTED)) n (swaprequests db)).
Proof.
  destruct id as [|n]; [by left|].
  destruct (swaprequests db !! n) as [r|] eqn:Hr; cycle 1.
  { left. unfold respond, handler, bind, SwapRequest.findById. by rewrite Hr. }
  destruct (decide (swapRequestSchema.recipient_id r = user)) as [Hu|Hu]; cycle 1.
  { left. by rewrite (respond_forbidden _ _ _ _ _ Hr). }
  destruct (decide (swapRequestSchema.status r = PENDING)) as [Hst|Hst]; cycle 1.
  { left. by rewrite (respond_resolved _ _ _ _ _ Hr). }
  destruct (events db !! swapRequestSchema.requester_event_id r) as [ea|] eqn:Ha;
    cycle 1.
  { left. rewrite (respond_events_gone _ _ _ _ _ Hr); auto. }
  destruct (events db !! swapRequestSchema.recipient_event_id r) as [ec|] eqn:Hc;
    cycle 1.
  { left. rewrite (respond_events_gone _ _ _ _ _ Hr); auto. }
  right. exists n, r, ea, ec.
  exists (if accept
          then λ e, eventSchema.with_status BUSY
                      (eventSchema.with_user_id (eventSchema.user_id ec) e)
          else eventSchema.with_status SWAPPABLE),
         (if accept
          then λ e, eventSchema.with_status BUSY
                      (eventSchema.with_user_id (eventSchema.user_id ea) e)
          else eventSchema.with_status SWAPPABLE).
  rewrite (respond_healthy _ _ accept _ _ _ _ Hr Hu Hst Ha Hc).
  split_and!; try done; by destruct accept.
Qed.

(** ** Counting the pending references *)

Lemma filter_length_alter {A} (f : A → bool) (g : A → A) (l : list A) i x :
  l !! i = Some x →
  length (List.filter f (alter g i l)) + (if f x then 1 else 0) =
  length (List.filter f l) + (if f (g x) then 1 else 0).
Proof.
  revert i. induction l as [|y l IH]; intros [|i] Hi; try done; simpl in *.
  - injection Hi as ->. destruct (f x), (f (g x)); simpl; lia.
  - specialize (IH i Hi). change (list_alter g i l) with (alter g i l).
    destruct (f y); simpl; lia.
Qed.

Lemma filter_length_none {A} (f : A → bool) (l : list A) :
  (∀ x, x ∈ l → f x = false) → length (List.filter f l) = 0.
Proof.
  induction l as [|y l IH]; intros H; [done|]. simpl.
  rewrite (H y) by apply list_elem_of_here.
  apply IH. intros x Hx. apply H. by apply list_elem_of_further.
Qed.

Lemma pending_refs_events ev ev' nx nx' l n :
  pending_refs (mkDb ev nx l) n = pending_refs (mkDb ev' nx' l) n.
Proof. reflexivity. Qed.

Lemma pending_refs_app ev nx l r n :
  pending_refs (mkDb ev nx (l ++ [r])) n =
  pending_refs (mkDb ev nx l) n +
    (if is_pending r && references n r then 1 else 0).
Proof.
  unfold pending_refs. simpl. rewrite List.filter_app, length_app. simpl.
  by destruct (is_pending r && references n r).
Qed.

Lemma pending_refs_resolve ev nx l i r st n :
  l !! i = Some r → swapRequestSchema.status r = PENDING → st ≠ PENDING →
  pending_refs (mkDb ev nx (alter (swapRequestSchema.with_status st) i l)) n
    + (if references n r then 1 else 0)
  = pending_refs (mkDb ev nx l) n.
Proof.
  intros Hi Hr Hst. unfold pending_refs. simpl.
  pose proof (filter_length_alter (λ r, is_pending r && references n r)
                (swapRequestSchema.with_status st) l i r Hi) as H.
  assert (Hp : is_pending r = true) by by apply bool_decide_eq_true_2.
  assert (Hq : is_pending (swapRequestSchema.with_status st r) = false)
    by by apply bool_decide_eq_false_2.
  cbv beta in H. rewrite Hp, Hq in H. simpl in H. lia.
Qed.

Lemma alter_pair_lookup (fa fc : eventSchema.doc → eventSchema.doc) a c
    (ev : gmap nat eventSchema.doc) m e' :
  alter fc c (alter fa a ev) !! m = Some e' →
  (m ≠ a ∧ m ≠ c ∧ ev !! m = Some e') ∨
  ((m = a ∨ m = c) ∧
   ∃ e, ev !! m = Some e ∧ (e' = fa e ∨ e' = fc e ∨ e' = fc (fa e))).
Proof.
  rewrite !lookup_alter. intros H.
  destruct (decide (c = m)) as [->|Hc], (decide (a = m)) as [->|Ha];
    simpl in H.
  - right. split; [auto|]. destruct (ev !! m) as [e|]; [|done].
    injection H as <-. eauto.
  - right. split; [auto|]. destruct (ev !! m) as [e|]; [|done].
    injection H as <-. eauto.
  - right. split; [auto|]. destruct (ev !! m) as [e|]; [|done].
    injection H as <-. eauto.
  - left. auto.
Qed.

(** ** Preservation of consistency *)

Lemma consistent_empty : consistent empty_db.
Proof. split; simpl; [intros n [e He]| |]; try done. intros r Hr. by inversion Hr. Qed.

Lemma consistent_insert db d :
  consistent db → eventSchema.status d ≠ SWAP_PENDING →
  consistent (mkDb (<[next_event_id db := d]> (events db))
                   (S (next_event_id db)) (swaprequests db)).
Proof.
  intros [Hs Hrf Hl] Hd. split; simpl.
  - intros n [e He]. rewrite lookup_insert in He.
    case_decide; [lia|]. specialize (Hs n (ex_intro _ e He)). lia.
  - intros r Hr. specialize (Hrf r Hr). lia.
  - intros n e He. rewrite lookup_insert in He. case_decide as Hn.
    + injection He as <-. subst n. rewrite decide_False by done.
      apply filter_length_none. intros r Hr. specialize (Hrf r Hr).
      unfold references.
      rewrite !bool_decide_eq_false_2 by lia. apply andb_false_r.
    + rewrite <- (Hl n e He). reflexivity.
Qed.

Lemma consistent_alter db n e f :
  consistent db → events db !! n = Some e →
  eventSchema.status e ≠ SWAP_PENDING →
  eventSchema.status (f e) ≠ SWAP_PENDING →
  consistent (with_events (alter f n) db).
Proof.
  intros [Hs Hrf Hl] He Hst Hst'. split; simpl.
  - intros m [e' He']. apply Hs. rewrite lookup_alter in He'.
    case_decide; [subst; eauto|eauto].
  - done.
  - intros m e' He'. rewrite lookup_alter in He'. case_decide as Hm.
    + subst m. rewrite He in He'. injection He' as <-.
      rewrite decide_False by done.
      specialize (Hl n e He). rewrite decide_False in Hl by done. exact Hl.
    + exact (Hl m e' He').
Qed.

Lemma consistent_delete db n :
  consistent db → consistent (with_events (delete n) db).
Proof.
  intros [Hs Hrf Hl]. split; simpl.
  - intros m [e He]. apply Hs. rewrite lookup_delete in He.
    case_decide; [done|eauto].
  - done.
  - intros m e He. rewrite lookup_delete in He. case_decide; [done|].
    exact (Hl m e He).
Qed.

Lemma consistent_propose db user a c ea ec now :
  consistent db →
  events db !! a = Some ea → events db !! c = Some ec →
  eventSchema.status ea = SWAPPABLE → eventSchema.status ec = SWAPPABLE →
  consistent
    (mkDb (alter (eventSchema.with_status SWAP_PENDING) c
             (alter (eventSchema.with_status SWAP_PENDING) a (events db)))
          (next_event_id db)
          (swaprequests db ++
             [swapRequestSchema.mk user a (eventSchema.user_id ec) c PENDING now])).
Proof.
  intros [Hs Hrf Hl] Ha Hc Hsa Hsc. split; simpl.
  - intros m [e' He']. apply Hs.
    apply alter_pair_lookup in He' as [(_ & _ & H)|(_ & e & H & _)]; eauto.
  - intros r [Hr|Hr]%elem_of_app; [by apply Hrf|].
    apply list_elem_of_singleton in Hr as ->. simpl.
    split; apply Hs; eauto.
  - intros m e' He'. rewrite pending_refs_app.
    rewrite (pending_refs_events _ (events db) _ (next_event_id db)).
    unfold references; simpl.
    apply alter_pair_lookup in He' as [(Hma & Hmc & H)|(Hm & e & H & He')].
    + rewrite !bool_decide_eq_false_2 by done. simpl.
      rewrite Nat.add_0_r. exact (Hl m e' H).
    + assert (eventSchema.status e' = SWAP_PENDING) as ->
        by by destruct He' as [->|[->| ->]].
      assert (eventSchema.status e = SWAPPABLE) as Hst
        by (destruct Hm as [->| ->]; congruence).
      specialize (Hl m e H). rewrite Hst in Hl. simpl in Hl.
      change (pending_refs db m) with
        (pending_refs (mkDb (events db) (next_event_id db) (swaprequests db)) m)
        in Hl.
      rewrite Hl.
      destruct Hm as [->| ->].
      * rewrite (bool_decide_eq_true_2 (a = a)) by done. reflexivity.
      * rewrite (bool_decide_eq_true_2 (c = c)), orb_true_r by done.
        reflexivity.
Qed.

Lemma consistent_respond db i r ea ec fa fc st :
  consistent db →
  swaprequests db !! i = Some r → swapRequestSchema.status r = PENDING →
  events db !! swapRequestSchema.requester_event_id r = Some ea →
  events db !! swapRequestSchema.recipient_event_id r = Some ec →
  (∀ e, eventSchema.status (fa e) ≠ SWAP_PENDING) →
  (∀ e, eventSchema.status (fc e) ≠ SWAP_PENDING) →
  st ≠ PENDING →
  consistent
    (mkDb (alter fc (swapRequestSchema.recipient_event_id r)
             (alter fa (swapRequestSchema.requester_event_id r) (events db)))
          (next_event_id db)
          (alter (swapRequestSchema.with_status st) i (swaprequests db))).
Proof.
  intros Hcons Hi Hr Ha Hc Hfa Hfc Hst.
  pose proof Hcons as [Hs Hrf Hl]. split; simpl.
  - intros m [e' He']. apply Hs.
    apply alter_pair_lookup in He' as [(_ & _ & H)|(_ & e & H & _)]; eauto.
  - intros r' Hr'. apply list_elem_of_lookup in Hr' as [j Hj].
    rewrite list_lookup_alter in Hj. case_decide as Hij.
    + subst j. rewrite Hi in Hj. injection Hj as <-. simpl.
      apply Hrf. apply list_elem_of_lookup. eauto.
    + apply Hrf. apply list_elem_of_lookup. eauto.
  - intros m e' He'.
    pose proof (pending_refs_resolve
                  (alter fc (swapRequestSchema.recipient_event_id r)
                     (alter fa (swapRequestSchema.requester_event_id r)
                        (events db)))
                  (next_event_id db) (swaprequests db) i r st m Hi Hr Hst)
      as Hcount.
    rewrite (pending_refs_events _ (events db) _ (next_event_id db)
               (swaprequests db)) in Hcount.
    change (pending_refs (mkDb (events db) (next_event_id db) (swaprequests db)) m)
      with (pending_refs db m) in Hcount.
    apply alter_pair_lookup in He' as [(Hma & Hmc & H)|(Hm & e & H & He')].
    + unfold references in Hcount.
      rewrite !bool_decide_eq_false_2 in Hcount by done. simpl in Hcount.
      rewrite <- (Hl m e' H). lia.
    + assert (eventSchema.status e' ≠ SWAP_PENDING) as Hne
        by by destruct He' as [->|[->| ->]].
      rewrite decide_False by done.
      assert (references m r = true) as Href.
      { unfold references. destruct Hm as [->| ->].
        - by rewrite bool_decide_eq_true_2.
        - rewrite (bool_decide_eq_true_2
                     (swapRequestSchema.recipient_event_id r
                      = swapRequestSchema.recipient_event_id r))
            by done.
          apply orb_true_r. }
      rewrite Href in Hcount.
      specialize (Hl m e H). destruct (decide _); lia.
Qed.

Lemma consistent_step db op :
  consistent db → lock_by_swap_only op → consistent (exec no_faults op db).1.
Proof.
  intros Hdb Hop. destruct op as [user b|user id b|user id|user now b|user id accept];
    simpl in *.
  - destruct (create_event_cases user b db) as [->|(d & Hst & ->)]; [done|].
    apply consistent_insert; [done|]. intros Hd. apply Hop.
    rewrite Hd in Hst. apply parse_status_inv in Hst. unfold supplies_pending.
    destruct (truthy (EventBody.status b)); simpl in Hst; [by subst|done].
  - destruct (update_event_cases user id b db)
      as [->|(n & e & f & He & Hst & Hf & ->)]; [done|].
    apply (consistent_alter db n e f); [done..|].
    rewrite (update_changes_status b f e Hf). intros Hd. apply Hop.
    unfold supplies_pending.
    destruct (truthy (EventBody.status b)) as [s|]; [|done].
    destruct (parse_status s) as [st|] eqn:Hs; simpl in Hd; [|done].
    subst st. by apply parse_status_inv in Hs as ->.
  - destruct (delete_event_cases user id db) as [->|(n & ->)]; [done|].
    by apply consistent_delete.
  - destruct (propose_cases user now b db)
      as [->|(a & c & ea & ec & Ha & Hc & Hsa & Hsc & ->)]; [done|].
    by apply (consistent_propose db user a c ea ec now).
  - destruct (respond_cases user id accept db)
      as [->|(n & r & ea & ec & fa & fc & Hn & Hr & Ha & Hc & Hfa & Hfc & ->)];
      [done|].
    apply (consistent_respond db n r ea ec fa fc); try done.
    by destruct accept.
Qed.

Lemma consistent_reachable db :
  reachable_by lock_by_swap_only db → consistent db.
Proof.
  induction 1 as [|db op _ IH Hop]; [apply consistent_empty|].
  by apply consistent_step.
Qed.

Lemma consistent_lock_invariant db : consistent db → lock_invariant db.
Proof.
  intros [_ _ Hl] n e He. rewrite (Hl n e He).
  destruct (decide (eventSchema.status e = SWAP_PENDING)); split; try done; lia.
Qed.

(** ** The lock invariant over reachable states *)

(** C1, as stated, fails: the create route stores a caller-supplied
    [SWAP_PENDING], which gives a reachable state where an event is
    [SWAP_PENDING] and no swap request exists at all. *)
Lemma lock_invariant_broken_by_create :
  reachable (run created_pending) ∧ ¬ lock_invariant (run created_pending).
Proof.
  split.
  - apply (reach_step _ empty_db (CreateEvent 1 _)); [constructor|done].
  - intros H.
    specialize (H 0 (eventSchema.mk 1 "gym" 1 2 SWAP_PENDING) eq_refl).
    apply proj1 in H. specialize (H eq_refl). vm_compute in H. discriminate.
Qed.

(** C1, amended: when the operations are handled one at a time on a
    healthy database and the create and update routes are not handed the
    status [SWAP_PENDING], then in every state reached a stored event is
    [SWAP_PENDING] if and only if exactly one [PENDING] swap request
    references it as its requester event or its recipient event.  Handlers
    that overlap are left out of this statement, which neither promises nor
    denies the invariant for them; [overlapping_proposals_lock_twice] shows
    what two overlapping proposals do. *)
Theorem lock_invariant_reachable db :
  reachable_by lock_by_swap_only db → lock_invariant db.
Proof.
  intros H. apply consistent_lock_invariant. by apply consistent_reachable.
Qed.

Lemma lock_invariant_reachable_witness :
  reachable_by lock_by_swap_only (run one_pending) ∧
  lock_invariant (run one_pending).
Proof.
  assert (reachable_by lock_by_swap_only (run one_pending)) as H.
  { apply (reach_step _ _ (Propose 1 10 _)); [|exact I].
    apply (reach_step _ _ (CreateEvent 2 _)); [|by intros [=]].
    apply (reach_step _ _ (CreateEvent 1 _)); [|by intros [=]].
    constructor. }
  split; [exact H|]. exact (lock_invariant_reachable _ H).
Defined.

(** ** Overlapping proposals *)

(** The create route is its checks followed by its writes. *)
Lemma propose_in_two_phases flt user now b db :
  propose flt user now b db =
    handler "Failed to create swap request"
      (await checked <~ propose_checks user b in
       propose_rest flt user now checked) db.
Proof.
  unfold propose, propose_checks, propose_rest, handler, bind.
  destruct (or_else (SwapBody.mySlotId b) (SwapBody.requester_event_id b))
    as [[|mine]|];
    destruct (or_else (SwapBody.theirSlotId b) (SwapBody.recipient_event_id b))
    as [[|theirs]|]; try reflexivity.
  all: unfold Promise_all, Event.findById, throw, ret; simpl.
  all: destruct (events db !! mine) as [ea|]; try reflexivity.
  all: destruct (events db !! theirs) as [ec|]; try reflexivity.
  destruct (negb (bool_decide (eventSchema.user_id ea = user)));
    [reflexivity|].
  by destruct (negb (bool_decide (eventSchema.status ea = SWAPPABLE))
               || negb (bool_decide (eventSchema.status ec = SWAPPABLE))).
Qed.

Lemma propose_checks_pass user b a c ea ec db :
  or_else (SwapBody.mySlotId b) (SwapBody.requester_event_id b)
    = Some (ObjectId a) →
  or_else (SwapBody.theirSlotId b) (SwapBody.recipient_event_id b)
    = Some (ObjectId c) →
  events db !! a = Some ea → events db !! c = Some ec →
  eventSchema.user_id ea = user →
  eventSchema.status ea = SWAPPABLE → eventSchema.status ec = SWAPPABLE →
  propose_checks user b db = (db, inr (inr (a, eventSchema.user_id ec, c))).
Proof.
  intros Hmine Htheirs Ha Hc Hu Hsa Hsc. unfold propose_checks.
  rewrite Hmine, Htheirs. unfold bind, Promise_all, Event.findById.
  rewrite Ha, Hc. by rewrite !bool_decide_eq_true_2.
Qed.

(** Two proposals on the same recipient event whose handlers overlap:
    both pass the checks, both are answered 201, both requests are stored
    as [PENDING], and the recipient event ends up [SWAP_PENDING] under two
    more [PENDING] requests than before.  The check-then-write of the
    create route is not atomic. *)
Lemma overlapping_proposals_lock_twice
    user1 now1 b1 a1 e1 user2 now2 b2 a2 e2 c ec db :
  or_else (SwapBody.mySlotId b1) (SwapBody.requester_event_id b1)
    = Some (ObjectId a1) →
  or_else (SwapBody.theirSlotId b1) (SwapBody.recipient_event_id b1)
    = Some (ObjectId c) →
  or_else (SwapBody.mySlotId b2) (SwapBody.requester_event_id b2)
    = Some (ObjectId a2) →
  or_else (SwapBody.theirSlotId b2) (SwapBody.recipient_event_id b2)
    = Some (ObjectId c) →
  events db !! a1 = Some e1 → events db !! a2 = Some e2 →
  events db !! c = Some ec →
  eventSchema.user_id e1 = user1 → eventSchema.user_id e2 = user2 →
  eventSchema.status e1 = SWAPPABLE → eventSchema.status e2 = SWAPPABLE →
  eventSchema.status ec = SWAPPABLE →
  let out := overlapped no_faults user1 now1 b1 user2 now2 b2 db in
  code out.2.1 = 201 ∧ code out.2.2 = 201 ∧
  swaprequests out.1 =
    swaprequests db ++
      [swapRequestSchema.mk user1 a1 (eventSchema.user_id ec) c PENDING now1;
       swapRequestSchema.mk user2 a2 (eventSchema.user_id ec) c PENDING now2] ∧
  eventSchema.status <$> events out.1 !! c = Some SWAP_PENDING ∧
  pending_refs out.1 c = pending_refs db c + 2 ∧
  ¬ lock_invariant out.1.
Proof.
  intros Hm1 Ht1 Hm2 Ht2 Ha1 Ha2 Hc Hu1 Hu2 Hs1 Hs2 Hsc out.
  assert (out =
    (mkDb (alter (eventSchema.with_status SWAP_PENDING) c
             (alter (eventSchema.with_status SWAP_PENDING) a2
                (alter (eventSchema.with_status SWAP_PENDING) c
                   (alter (eventSchema.with_status SWAP_PENDING) a1
                      (events db)))))
          (next_event_id db)
          ((swaprequests db ++
             [swapRequestSchema.mk user1 a1 (eventSchema.user_id ec) c PENDING now1])
           ++ [swapRequestSchema.mk user2 a2 (eventSchema.user_id ec) c PENDING now2]),
     (out.2.1, out.2.2)) ∧ code out.2.1 = 201 ∧ code out.2.2 = 201)
    as (Hout & Hc1 & Hc2).
  { unfold out, overlapped.
    rewrite (propose_checks_pass user1 b1 a1 c e1 ec db) by done.
    rewrite (propose_checks_pass user2 b2 a2 c e2 ec db) by done.
    unfold resume, propose_rest, handler, bind, Promise_all,
      SwapRequest.create, Event.findByIdAndUpdate, SwapRequest.findById.
    simpl. by rewrite !lookup_app_r, !Nat.sub_diag
      by (rewrite ?length_app; simpl; lia). }
  assert (Hst : eventSchema.status <$> events out.1 !! c = Some SWAP_PENDING).
  { rewrite Hout. simpl. rewrite lookup_alter_eq.
    rewrite !lookup_alter. repeat case_decide; subst;
      rewrite ?Ha1, ?Ha2, ?Hc; done. }
  assert (Hrefs : pending_refs out.1 c = pending_refs db c + 2).
  { rewrite Hout. cbn [fst]. rewrite !pending_refs_app.
    change (pending_refs (mkDb _ (next_event_id db) (swaprequests db)) c)
      with (pending_refs db c).
    unfold references, is_pending. simpl.
    rewrite !(bool_decide_eq_true_2 (c = c)) by done.
    rewrite !orb_true_r. simpl. lia. }
  split_and!; try done.
  - rewrite Hout. simpl. by rewrite <- app_assoc.
  - intros Hinv.
    destruct (events out.1 !! c) as [e|] eqn:He; [|done].
    injection Hst as Hst. apply (Hinv c e He) in Hst. lia.
Qed.

(** An instance: users 1 and 3 both propose against event 1 of user 2.
    No caller names [SWAP_PENDING], the database is healthy, and yet event 1
    ends up under two [PENDING] requests. *)
Lemma overlapping_proposals_example :
  let out := overlapped no_faults 1 10 (swap_body 0 1) 3 11 (swap_body 2 1)
               (run three_swappable) in
  reachable_by lock_by_swap_only (run three_swappable) ∧
  code out.2.1 = 201 ∧ code out.2.2 = 201 ∧
  pending_refs out.1 1 = 2 ∧ ¬ lock_invariant out.1.
Proof.
  split.
  { apply (reach_step _ _ (CreateEvent 3 _)); [|by intros [=]].
    apply (reach_step _ _ (CreateEvent 2 _)); [|by intros [=]].
    apply (reach_step _ _ (CreateEvent 1 _)); [|by intros [=]].
    constructor. }
  pose proof (overlapping_proposals_lock_twice 1 10 (swap_body 0 1) 0
                (eventSchema.mk 1 "gym" 1 2 SWAPPABLE)
                3 11 (swap_body 2 1) 2
                (eventSchema.mk 3 "run" 7 8 SWAPPABLE) 1
                (eventSchema.mk 2 "dentist" 5 6 SWAPPABLE)
                (run three_swappable)
                eq_refl eq_refl eq_refl eq_refl) as H.
  specialize (H ltac:(vm_compute; reflexivity) ltac:(vm_compute; reflexivity)
                ltac:(vm_compute; reflexivity) eq_refl eq_refl eq_refl eq_refl
                eq_refl).
  destruct H as (H1 & H2 & _ & _ & H5 & H6). split_and!; try done.
Qed.

(** ** Responding to a pending request *)

(** C2: on a [PENDING] request whose two events exist, answered by its
    recipient, accepting gives each event the other's previous owner and
    makes both [BUSY]; rejecting makes both [SWAPPABLE] and keeps the
    owners.  Titles and times are untouched either way. *)
Theorem respond_exchanges_or_releases user n r ea ec db :
  swaprequests db !! n = Some r →
  swapRequestSchema.status r = PENDING →
  swapRequestSchema.recipient_id r = user →
  events db !! swapRequestSchema.requester_event_id r = Some ea →
  events db !! swapRequestSchema.recipient_event_id r = Some ec →
  let after accept := events (respond no_faults user (ObjectId n) accept db).1 in
  after true !! swapRequestSchema.requester_event_id r =
    Some (eventSchema.mk (eventSchema.user_id ec) (eventSchema.title ea)
            (eventSchema.start_time ea) (eventSchema.end_time ea) BUSY) ∧
  after true !! swapRequestSchema.recipient_event_id r =
    Some (eventSchema.mk (eventSchema.user_id ea) (eventSchema.title ec)
            (eventSchema.start_time ec) (eventSchema.end_time ec) BUSY) ∧
  after false !! swapRequestSchema.requester_event_id r =
    Some (eventSchema.mk (eventSchema.user_id ea) (eventSchema.title ea)
            (eventSchema.start_time ea) (eventSchema.end_time ea) SWAPPABLE) ∧
  after false !! swapRequestSchema.recipient_event_id r =
    Some (eventSchema.mk (eventSchema.user_id ec) (eventSchema.title ec)
            (eventSchema.start_time ec) (eventSchema.end_time ec) SWAPPABLE).
Proof.
  intros Hr Hst Hu Ha Hc after. subst after. cbv beta.
  rewrite !(respond_healthy user n _ r ea ec db Hr Hu Hst Ha Hc).
  simpl. rewrite !lookup_alter.
  destruct (decide (swapRequestSchema.recipient_event_id r
                    = swapRequestSchema.requester_event_id r)) as [Heq|Hne].
  - rewrite Heq in *. rewrite Ha in Hc. injection Hc as <-.
    rewrite !decide_True by done. rewrite Ha. done.
  - repeat case_decide; try congruence. rewrite Ha, Hc. done.
Qed.

Lemma respond_exchanges_or_releases_witness :
  let db := run one_pending in
  (events (respond no_faults 2 (ObjectId 0) true db).1 !! 0 =
     Some (eventSchema.mk 2 "gym" 1 2 BUSY) ∧
   events (respond no_faults 2 (ObjectId 0) true db).1 !! 1 =
     Some (eventSchema.mk 1 "dentist" 5 6 BUSY) ∧
   events (respond no_faults 2 (ObjectId 0) false db).1 !! 0 =
     Some (eventSchema.mk 1 "gym" 1 2 SWAPPABLE) ∧
   events (respond no_faults 2 (ObjectId 0) false db).1 !! 1 =
     Some (eventSchema.mk 2 "dentist" 5 6 SWAPPABLE)).
Proof.
  refine (respond_exchanges_or_releases 2 0
            (swapRequestSchema.mk 1 0 2 1 PENDING 10)
            (eventSchema.mk 1 "gym" 1 2 SWAP_PENDING)
            (eventSchema.mk 2 "dentist" 5 6 SWAP_PENDING)
            (run one_pending) _ _ _ _ _);
    vm_compute; reflexivity.
Defined.

(** C3, as stated, fails: with the write to event 1 failing, accepting
    request 0 answers 500, yet the request is stored as [ACCEPTED]; event 0
    has changed hands and event 1 has not. *)
Lemma respond_resolves_before_event_failure :
  let db := run one_pending in
  let out := respond event_1_unwritable 2 (ObjectId 0) true db in
  swapRequestSchema.status <$> swaprequests db !! 0 = Some PENDING ∧
  out.2 = mkResponse 500
            (Failure "Failed to respond to swap request" StorageError) ∧
  swapRequestSchema.status <$> swaprequests out.1 !! 0 = Some ACCEPTED ∧
  events out.1 !! 0 = Some (eventSchema.mk 2 "gym" 1 2 BUSY) ∧
  events out.1 !! 1 = Some (eventSchema.mk 2 "dentist" 5 6 SWAP_PENDING).
Proof. vm_compute. done. Qed.

(** C3, amended: the request status is written before the event-side
    effect and never rolled back.  When the request write succeeds and a
    write the answer sends to one of the two events fails, the caller gets
    the 500 failure, and the request is already stored as [ACCEPTED]
    (accept) or [REJECTED] (reject), no longer [PENDING].  A rejection
    sends a write to both events; an acceptance sends one to an event only
    when the exchange changes its owner or its status. *)
Theorem respond_event_failure flt user n accept r ea ec db :
  swaprequests db !! n = Some r →
  swapRequestSchema.status r = PENDING →
  swapRequestSchema.recipient_id r = user →
  events db !! swapRequestSchema.requester_event_id r = Some ea →
  events db !! swapRequestSchema.recipient_event_id r = Some ec →
  flt (RequestDoc n) = false →
  (flt (EventDoc (swapRequestSchema.requester_event_id r)) = true ∧
   sends_write accept (eventSchema.user_id ec) ea) ∨
  (flt (EventDoc (swapRequestSchema.recipient_event_id r)) = true ∧
   sends_write accept (eventSchema.user_id ea) ec) →
  let out := respond flt user (ObjectId n) accept db in
  out.2 = mkResponse 500
            (Failure "Failed to respond to swap request" StorageError) ∧
  swaprequests out.1 !! n =
    Some (swapRequestSchema.with_status
            (if accept then ACCEPTED else REJECTED) r).
Proof.
  intros Hr Hst Hu Ha Hc Hreq Hev out. subst out.
  rewrite (respond_writes flt user n accept r ea ec db Hr Hu Hst Ha Hc Hreq).
  cbv zeta. split.
  - cbn [snd]. rewrite (proj2 (orb_true_iff _ _)); [done|].
    destruct Hev as [[Hf Hw]|[Hf Hw]]; [left|right]; rewrite Hf, andb_true_r;
      (destruct accept; [|done]); apply bool_decide_eq_true_2;
      by destruct Hw.
  - cbn [fst].
    repeat match goal with |- context [if ?b && ?c then _ else _] =>
      destruct (b && c) end;
      simpl; by rewrite list_lookup_alter_eq, Hr.
Qed.

Lemma respond_event_failure_witness :
  let out := respond event_1_unwritable 2 (ObjectId 0) true (run one_pending) in
  out.2 = mkResponse 500
            (Failure "Failed to respond to swap request" StorageError) ∧
  swaprequests out.1 !! 0 = Some (swapRequestSchema.mk 1 0 2 1 ACCEPTED 10).
Proof.
  refine (respond_event_failure event_1_unwritable 2 0 true
            (swapRequestSchema.mk 1 0 2 1 PENDING 10)
            (eventSchema.mk 1 "gym" 1 2 SWAP_PENDING)
            (eventSchema.mk 2 "dentist" 5 6 SWAP_PENDING)
            (run one_pending) _ _ _ _ _ _ _);
    try (vm_compute; reflexivity).
  right. split; [reflexivity|]. right. discriminate.
Defined.

(** An acceptance that changes neither event sends no event write: it
    answers 200 whatever the database would do to such a write. *)
Lemma respond_unchanged_events_no_write flt user n r ea ec db :
  swaprequests db !! n = Some r →
  swapRequestSchema.status r = PENDING →
  swapRequestSchema.recipient_id r = user →
  events db !! swapRequestSchema.requester_event_id r = Some ea →
  events db !! swapRequestSchema.recipient_event_id r = Some ec →
  flt (RequestDoc n) = false →
  exchanged (eventSchema.user_id ec) ea = ea →
  exchanged (eventSchema.user_id ea) ec = ec →
  code (respond flt user (ObjectId n) true db).2 = 200.
Proof.
  intros Hr Hst Hu Ha Hc Hreq Hea Hec.
  rewrite (respond_writes flt user n true r ea ec db Hr Hu Hst Ha Hc Hreq).
  cbv zeta. cbn [snd]. unfold exchanged in *.
  by rewrite !bool_decide_eq_false_2 by (intros H; by apply H).
Qed.

(** ** Deleting a locked event *)

(** C4 against the code: event 0 is [SWAP_PENDING] under the pending
    request 0.  The update route refuses to touch it, but the delete route
    has no such check: the owner's delete succeeds and the event is gone,
    while request 0 still references it. *)
Theorem delete_event_ignores_lock :
  let db := run one_pending in
  let out := delete_event no_faults 1 (ObjectId 0) db in
  events db !! 0 = Some (eventSchema.mk 1 "gym" 1 2 SWAP_PENDING) ∧
  update_event no_faults 1 (ObjectId 0)
      (EventBody.mk None NoDate NoDate (Some "BUSY")) db =
    (db, mkResponse 400 (Error "Cannot modify events with pending swaps")) ∧
  out.2 = mkResponse 200 (Message "Event deleted successfully") ∧
  events out.1 !! 0 = None ∧
  swaprequests out.1 = [swapRequestSchema.mk 1 0 2 1 PENDING 10].
Proof. vm_compute. done. Qed.


(** ** Proposing a swap *)

(** C5, as stated, fails: user 1 owns both events, and the proposal is
    accepted with 201: a [PENDING] request from user 1 to user 1 is stored
    and both events are locked. *)
Lemma propose_self_swap_succeeds :
  let db := run same_owner in
  let out := propose no_faults 1 10 (swap_body 0 1) db in
  eventSchema.user_id <$> events db !! 0 = Some 1 ∧
  eventSchema.user_id <$> events db !! 1 = Some 1 ∧
  code out.2 = 201 ∧
  swaprequests db = [] ∧
  swaprequests out.1 = [swapRequestSchema.mk 1 0 1 1 PENDING 10] ∧
  eventSchema.status <$> events out.1 !! 0 = Some SWAP_PENDING ∧
  eventSchema.status <$> events out.1 !! 1 = Some SWAP_PENDING.
Proof. vm_compute. done. Qed.

(** C5, amended: the create route has no self-swap guard.  When the two
    events exist and share one owner, the proposal fails with the 403
    not-owner failure if the requester is not that owner, and with
    [NotSwappable] if one of the events is not [SWAPPABLE], in both cases
    storing nothing; otherwise it succeeds, stores a [PENDING] request
    whose requester and recipient are the same user, and sets both events
    to [SWAP_PENDING]. *)
Theorem propose_same_owner user now b a c ea ec db :
  or_else (SwapBody.mySlotId b) (SwapBody.requester_event_id b)
    = Some (ObjectId a) →
  or_else (SwapBody.theirSlotId b) (SwapBody.recipient_event_id b)
    = Some (ObjectId c) →
  events db !! a = Some ea → events db !! c = Some ec →
  eventSchema.user_id ea = eventSchema.user_id ec →
  let out := propose no_faults user now b db in
  (eventSchema.user_id ea ≠ user → out = (db, NotOwner)) ∧
  (eventSchema.user_id ea = user →
   eventSchema.status ea ≠ SWAPPABLE ∨ eventSchema.status ec ≠ SWAPPABLE →
   out = (db, NotSwappable)) ∧
  (eventSchema.user_id ea = user →
   eventSchema.status ea = SWAPPABLE → eventSchema.status ec = SWAPPABLE →
   code out.2 = 201 ∧
   swaprequests out.1 =
     swaprequests db ++ [swapRequestSchema.mk user a user c PENDING now] ∧
   events out.1 =
     alter (eventSchema.with_status SWAP_PENDING) c
       (alter (eventSchema.with_status SWAP_PENDING) a (events db))).
Proof.
  intros Hmine Htheirs Ha Hc Hsame out. subst out. split_and!.
  - intros Hu. by apply (propose_not_owner user now b a c ea ec).
  - intros Hu Hst. by apply (propose_not_swappable user now b a c ea ec).
  - intros Hu Hsa Hsc.
    rewrite (propose_success user now b a c ea ec db Hmine Htheirs Ha Hc Hu Hsa Hsc).
    simpl. by rewrite <- Hsame, Hu.
Qed.


Lemma propose_same_owner_witness :
  let db := run same_owner in
  let out := propose no_faults 1 10 (swap_body 0 1) db in
  code out.2 = 201 ∧
  swaprequests out.1 =
    swaprequests db ++ [swapRequestSchema.mk 1 0 1 1 PENDING 10] ∧
  events out.1 =
    alter (eventSchema.with_status SWAP_PENDING) 1
      (alter (eventSchema.with_status SWAP_PENDING) 0 (events db)).
Proof.
  refine (proj2 (proj2
           (propose_same_owner 1 10 (swap_body 0 1) 0 1
              (eventSchema.mk 1 "gym" 1 2 SWAPPABLE)
              (eventSchema.mk 1 "dentist" 5 6 SWAPPABLE)
              (run same_owner) _ _ _ _ _)) _ _ _);
    vm_compute; reflexivity.
Defined.

(** C6: when both events exist and the requester owns the first, but one
    of the two is not [SWAPPABLE], the proposal fails with [NotSwappable]
    and the store is left as it was: no request is created and no status
    changes.  This holds whatever the persistence layer does, since
    nothing is written. *)
Theorem propose_requires_both_swappable flt user now b a c ea ec db :
  or_else (SwapBody.mySlotId b) (SwapBody.requester_event_id b)
    = Some (ObjectId a) →
  or_else (SwapBody.theirSlotId b) (SwapBody.recipient_event_id b)
    = Some (ObjectId c) →
  events db !! a = Some ea → events db !! c = Some ec →
  eventSchema.user_id ea = user →
  eventSchema.status ea ≠ SWAPPABLE ∨ eventSchema.status ec ≠ SWAPPABLE →
  propose flt user now b db = (db, NotSwappable).
Proof. intros. by apply (propose_not_swappable user now b a c ea ec). Qed.

Lemma propose_requires_both_swappable_witness :
  propose no_faults 1 10 (swap_body 0 1) (run one_busy)
    = (run one_busy, NotSwappable).
Proof.
  refine (propose_requires_both_swappable no_faults 1 10 (swap_body 0 1) 0 1
            (eventSchema.mk 1 "gym" 1 2 BUSY)
            (eventSchema.mk 2 "dentist" 5 6 SWAPPABLE)
            (run one_busy) _ _ _ _ _ _);
    try (vm_compute; reflexivity).
  left. discriminate.
Defined.

(** ** What the routes do to the swap-request collection, whatever the
    persistence layer does *)

Lemma create_event_requests flt user b db :
  swaprequests (create_event flt user b db).1 = swaprequests db.
Proof.
  unfold create_event, handler, bind, ret, throw, Event.create.
  crunch; done.
Qed.

Lemma update_event_requests flt user id b db :
  swaprequests (update_event flt user id b db).1 = swaprequests db.
Proof.
  unfold update_event, handler, bind, ret, throw, Event.findOne, Event.save.
  crunch; done.
Qed.

Lemma delete_event_requests flt user id db :
  swaprequests (delete_event flt user id db).1 = swaprequests db.
Proof.
  unfold delete_event, handler, bind, ret, throw, Event.findOne, Event.deleteOne.
  crunch; done.
Qed.

Lemma propose_requests flt user now b db :
  swaprequests (propose flt user now b db).1 = swaprequests db ∨
  ∃ r, swaprequests (propose flt user now b db).1 = swaprequests db ++ [r].
Proof.
  unfold propose, handler, bind, ret, throw, Promise_all, Event.findById,
    SwapRequest.create, Event.findByIdAndUpdate, SwapRequest.findById.
  crunch; eauto.
Qed.

Lemma respond_requests flt user id accept db :
  swaprequests (respond flt user id accept db).1 = swaprequests db ∨
  ∃ n r, swaprequests db !! n = Some r ∧
         swapRequestSchema.status r = PENDING ∧
         swaprequests (respond flt user id accept db).1 =
           alter (swapRequestSchema.with_status
                    (if accept then ACCEPTED else REJECTED)) n (swaprequests db).
Proof.
  destruct id as [|n]; [by left|].
  destruct (swaprequests db !! n) as [r|] eqn:Hr; cycle 1.
  { left. unfold respond, handler, bind, SwapRequest.findById. by rewrite Hr. }
  destruct (decide (swapRequestSchema.recipient_id r = user)) as [Hu|Hu]; cycle 1.
  { left. by rewrite (respond_forbidden _ _ _ _ _ Hr). }
  destruct (decide (swapRequestSchema.status r = PENDING)) as [Hst|Hst]; cycle 1.
  { left. by rewrite (respond_resolved _ _ _ _ _ Hr). }
  destruct (events db !! swapRequestSchema.requester_event_id r) as [ea|] eqn:Ha;
    cycle 1.
  { left. rewrite (respond_events_gone _ _ _ _ _ Hr); auto. }
  destruct (events db !! swapRequestSchema.recipient_event_id r) as [ec|] eqn:Hc;
    cycle 1.
  { left. rewrite (respond_events_gone _ _ _ _ _ Hr); auto. }
  destruct (flt (RequestDoc n)) eqn:Hreq.
  { left. by rewrite (respond_request_write_fails _ _ _ _ _ Hr _ _ Hu Hst Ha Hc). }
  right. exists n, r. split_and!; [done..|].
  rewrite (respond_writes flt user n accept r ea ec db Hr Hu Hst Ha Hc Hreq).
  simpl. by repeat case_match.
Qed.

Lemma terminal_request_frozen flt op db n r :
  swaprequests db !! n = Some r → swapRequestSchema.status r ≠ PENDING →
  swaprequests (exec flt op db).1 !! n = Some r.
Proof.
  intros Hn Hr. destruct op as [user b|user id b|user id|user now b|user id accept];
    simpl.
  - by rewrite create_event_requests.
  - by rewrite update_event_requests.
  - by rewrite delete_event_requests.
  - destruct (propose_requests flt user now b db) as [->|[r' ->]]; [done|].
    by apply lookup_app_l_Some.
  - destruct (respond_requests flt user id accept db)
      as [->|(m & r' & Hm & Hr' & ->)]; [done|].
    rewrite list_lookup_alter_ne; [done|]. intros ->. congruence.
Qed.

Lemma terminal_request_frozen_run steps db n r :
  swaprequests db !! n = Some r → swapRequestSchema.status r ≠ PENDING →
  swaprequests (run_from db steps) !! n = Some r.
Proof.
  revert db. induction steps as [|[flt op] steps IH]; intros db Hn Hr; [done|].
  simpl. apply IH; [|done]. by apply terminal_request_frozen.
Qed.

(** ** Responding to a resolved request *)

(** C7, as stated, fails for a caller who is not the recipient: user 3
    answering the accepted request 0 gets the 403 failure, not
    [AlreadyResolved]. *)
Lemma respond_resolved_stranger_forbidden :
  let db := run one_accepted in
  swapRequestSchema.status <$> swaprequests db !! 0 = Some ACCEPTED ∧
  respond no_faults 3 (ObjectId 0) true db = (db, Forbidden) ∧
  Forbidden ≠ AlreadyResolved.
Proof. split_and!; [by vm_compute..|discriminate]. Qed.

(** C7, amended: on a request that is [ACCEPTED] or [REJECTED], a respond
    call with either answer changes nothing in the store; it fails with
    [AlreadyResolved] when the caller is the request's recipient and with
    the 403 failure for any other caller.  No later sequence of operations,
    on a healthy or a failing database, changes the stored request: it
    leaves [PENDING] at most once. *)
Theorem respond_on_resolved flt user n accept r db :
  swaprequests db !! n = Some r →
  swapRequestSchema.status r = ACCEPTED ∨ swapRequestSchema.status r = REJECTED →
  respond flt user (ObjectId n) accept db =
    (db, if decide (swapRequestSchema.recipient_id r = user)
         then AlreadyResolved else Forbidden) ∧
  ∀ steps, swaprequests (run_from db steps) !! n = Some r.
Proof.
  intros Hn Hr.
  assert (swapRequestSchema.status r ≠ PENDING) as Hne
    by (destruct Hr as [-> | ->]; discriminate).
  split.
  - case_decide.
    + by apply (respond_resolved user n accept r db).
    + by apply (respond_forbidden user n accept r db).
  - intros steps. by apply terminal_request_frozen_run.
Qed.

Lemma respond_on_resolved_witness :
  respond no_faults 2 (ObjectId 0) false (run one_accepted) =
    (run one_accepted,
     if decide (swapRequestSchema.recipient_id
                  (swapRequestSchema.mk 1 0 2 1 ACCEPTED 10) = 2)
     then AlreadyResolved else Forbidden) ∧
  ∀ steps, swaprequests (run_from (run one_accepted) steps) !! 0 =
             Some (swapRequestSchema.mk 1 0 2 1 ACCEPTED 10).
Proof.
  refine (respond_on_resolved no_faults 2 0 false
            (swapRequestSchema.mk 1 0 2 1 ACCEPTED 10) (run one_accepted) _ _).
  - vm_compute; reflexivity.
  - left. reflexivity.
Defined.

(** ** Propose, reject, propose again *)

(** C8: from two [SWAPPABLE] events of distinct owners, a proposal by the
    first owner followed by the recipient's rejection leaves both events
    stored exactly as they were ([SWAPPABLE], same owners), with the first
    request [REJECTED]; a second proposal on the same pair then succeeds
    with 201, stores a new [PENDING] request and locks both events. *)
Theorem propose_reject_propose b t1 t2 a c ea ec db :
  or_else (SwapBody.mySlotId b) (SwapBody.requester_event_id b)
    = Some (ObjectId a) →
  or_else (SwapBody.theirSlotId b) (SwapBody.recipient_event_id b)
    = Some (ObjectId c) →
  events db !! a = Some ea → events db !! c = Some ec →
  eventSchema.status ea = SWAPPABLE → eventSchema.status ec = SWAPPABLE →
  eventSchema.user_id ea ≠ eventSchema.user_id ec →
  let requester := eventSchema.user_id ea in
  let recipient := eventSchema.user_id ec in
  let n := length (swaprequests db) in
  let s1 := (propose no_faults requester t1 b db).1 in
  let s2 := (respond no_faults recipient (ObjectId n) false s1).1 in
  let out := propose no_faults requester t2 b s2 in
  events s2 !! a = Some ea ∧ events s2 !! c = Some ec ∧
  swaprequests s2 =
    swaprequests db ++ [swapRequestSchema.mk requester a recipient c REJECTED t1] ∧
  code out.2 = 201 ∧
  swaprequests out.1 =
    swaprequests s2 ++ [swapRequestSchema.mk requester a recipient c PENDING t2] ∧
  eventSchema.status <$> events out.1 !! a = Some SWAP_PENDING ∧
  eventSchema.status <$> events out.1 !! c = Some SWAP_PENDING.
Proof.
  intros Hmine Htheirs Ha Hc Hsa Hsc Hne requester recipient n s1 s2 out.
  assert (a ≠ c) as Hac by (intros ->; congruence).
  destruct ea as [ua ta sa ea' sta], ec as [uc tc sc ec' stc].
  simpl in *. subst sta stc.
  pose proof (propose_success requester t1 b a c _ _ db Hmine Htheirs Ha Hc
                eq_refl eq_refl eq_refl) as H1.
  simpl in H1. cbv zeta in H1.
  assert (Hs1 : s1 = (propose no_faults requester t1 b db).1) by done.
  rewrite H1 in Hs1. simpl in Hs1.
  set (r := swapRequestSchema.mk requester a uc c PENDING t1) in *.
  assert (Hr : swaprequests s1 !! n = Some r).
  { rewrite Hs1. simpl. by rewrite lookup_app_r, Nat.sub_diag. }
  assert (Ha1 : events s1 !! a = Some (eventSchema.mk ua ta sa ea' SWAP_PENDING)).
  { rewrite Hs1. simpl.
    rewrite lookup_alter_ne, lookup_alter_eq by done. by rewrite Ha. }
  assert (Hc1 : events s1 !! c = Some (eventSchema.mk uc tc sc ec' SWAP_PENDING)).
  { rewrite Hs1. simpl.
    rewrite lookup_alter_eq, lookup_alter_ne by done. by rewrite Hc. }
  pose proof (respond_healthy recipient n false r _ _ s1 Hr eq_refl
                eq_refl Ha1 Hc1) as H2.
  simpl in H2.
  assert (Hs2 : s2 = (respond no_faults recipient (ObjectId n) false s1).1) by done.
  rewrite H2 in Hs2. simpl in Hs2.
  assert (Ha2 : events s2 !! a = Some (eventSchema.mk ua ta sa ea' SWAPPABLE)).
  { rewrite Hs2. simpl.
    rewrite lookup_alter_ne, lookup_alter_eq by done. by rewrite Ha1. }
  assert (Hc2 : events s2 !! c = Some (eventSchema.mk uc tc sc ec' SWAPPABLE)).
  { rewrite Hs2. simpl.
    rewrite lookup_alter_eq, lookup_alter_ne by done. by rewrite Hc1. }
  assert (Hq2 : swaprequests s2 =
                swaprequests db ++ [swapRequestSchema.mk requester a uc c REJECTED t1]).
  { rewrite Hs2, Hs1. simpl. apply list_eq. intros i.
    rewrite list_lookup_alter. case_decide as Hi.
    - subst i. fold n. by rewrite !lookup_app_r, Nat.sub_diag.
    - destruct (decide (i < n)) as [Hlt|Hge].
      + by rewrite !lookup_app_l.
      + rewrite !lookup_app_r by (unfold n in *; lia).
        destruct (i - length (swaprequests db)) as [|k] eqn:Hk;
          [unfold n in *; lia|done]. }
  pose proof (propose_success requester t2 b a c _ _ s2 Hmine Htheirs Ha2 Hc2
                eq_refl eq_refl eq_refl) as H3.
  simpl in H3. cbv zeta in H3.
  subst out. rewrite H3. simpl.
  split_and!; try done.
  - by rewrite lookup_alter_ne, lookup_alter_eq, Ha2.
  - by rewrite lookup_alter_eq, lookup_alter_ne, Hc2.
Qed.

Lemma propose_reject_propose_witness :
  let db := run two_swappable in
  let s1 := (propose no_faults 1 10 (swap_body 0 1) db).1 in
  let s2 := (respond no_faults 2 (ObjectId 0) false s1).1 in
  let out := propose no_faults 1 20 (swap_body 0 1) s2 in
  events s2 !! 0 = Some (eventSchema.mk 1 "gym" 1 2 SWAPPABLE) ∧
  events s2 !! 1 = Some (eventSchema.mk 2 "dentist" 5 6 SWAPPABLE) ∧
  swaprequests s2 =
    swaprequests db ++ [swapRequestSchema.mk 1 0 2 1 REJECTED 10] ∧
  code out.2 = 201 ∧
  swaprequests out.1 =
    swaprequests s2 ++ [swapRequestSchema.mk 1 0 2 1 PENDING 20] ∧
  eventSchema.status <$> events out.1 !! 0 = Some SWAP_PENDING ∧
  eventSchema.status <$> events out.1 !! 1 = Some SWAP_PENDING.
Proof.
  refine (propose_reject_propose (swap_body 0 1) 10 20 0 1
            (eventSchema.mk 1 "gym" 1 2 SWAPPABLE)
            (eventSchema.mk 2 "dentist" 5 6 SWAPPABLE)
            (run two_swappable) _ _ _ _ _ _ _);
    try (vm_compute; reflexivity).
  simpl. discriminate.
Defined.

(** ** Listing requests *)

Lemma insert_desc_equal_keys {A} (key : A → bson) x l :
  (∀ y, y ∈ l → bson_ltb (key x) (key y) = false) →
  insert_desc key x l = x :: l.
Proof.
  destruct l as [|y l]; [done|]. intros H. simpl.
  by rewrite (H y (list_elem_of_here _ _)).
Qed.

(** Sorting on a path that no document stores leaves the order alone. *)
Lemma sort_desc_missing_path {A} (key : A → bson) l :
  (∀ x, key x = BNull) → sort_desc key l = l.
Proof.
  intros Hk. induction l as [|x l IH]; [done|].
  unfold sort_desc in *. simpl. rewrite IH.
  apply insert_desc_equal_keys. intros y _. by rewrite !Hk.
Qed.

Lemma created_at_is_no_path r : SwapRequest.get "created_at" r = BNull.
Proof. reflexivity. Qed.

(** Both listings are reads: they return the matching requests in the
    natural order of the collection and leave the store alone. *)
Lemma listIncoming_natural_order user db :
  listIncoming user db =
    (db, mkResponse 200
           (DataRequests
              (SwapRequest.populate db <$>
                 List.filter
                   (λ r, bool_decide (swapRequestSchema.recipient_id r.2 = user))
                   (SwapRequest.all db)))).
Proof.
  unfold listIncoming, handler, bind, SwapRequest.find. simpl.
  by rewrite (sort_desc_missing_path _ _ created_at_is_no_path).
Qed.

Lemma listOutgoing_natural_order user db :
  listOutgoing user db =
    (db, mkResponse 200
           (DataRequests
              (SwapRequest.populate db <$>
                 List.filter
                   (λ r, bool_decide (swapRequestSchema.requester_id r.2 = user))
                   (SwapRequest.all db)))).
Proof.
  unfold listOutgoing, handler, bind, SwapRequest.find. simpl.
  by rewrite (sort_desc_missing_path _ _ created_at_is_no_path).
Qed.

(** C9 against the code: user 2 has two incoming requests, request 0
    created at 10 and request 1 created at 20.  The listing is a pure read
    and returns exactly these two, but oldest first: the sort key
    [created_at] names no stored path (the stamp is [createdAt]), so the
    sort orders nothing.  The same holds for the outgoing listing of
    user 1. *)
Theorem listIncoming_not_newest_first :
  let db := run proposed_twice in
  (listIncoming 2 db).1 = db ∧ (listOutgoing 1 db).1 = db ∧
  swapRequestSchema.createdAt <$> swaprequests db = [10%Z; 20%Z] ∧
  stamps (listIncoming 2 db).2 = [10%Z; 20%Z] ∧
  stamps (listOutgoing 1 db).2 = [10%Z; 20%Z] ∧
  descending (stamps (listIncoming 2 db).2) = false ∧
  descending (stamps (listOutgoing 1 db).2) = false.
Proof. vm_compute. done. Qed.

(** ** Caller-supplied status *)



(** ** The lock bound in every reachable state *)

Lemma pending_refs_lower_bound db i r n :
  swaprequests db !! i = Some r → swapRequestSchema.status r = PENDING →
  references n r = true → 1 ≤ pending_refs db n.
Proof.
  intros Hi Hr Hn.
  pose proof (pending_refs_resolve (events db) (next_event_id db)
                (swaprequests db) i r ACCEPTED n Hi Hr) as H.
  rewrite Hn in H. specialize (H ltac:(done)).
  change (pending_refs (mkDb (events db) (next_event_id db) (swaprequests db)) n)
    with (pending_refs db n) in H. lia.
Qed.

Lemma bounded_empty : bounded empty_db.
Proof.
  split; simpl; [intros n [e He]| |]; try done. intros r Hr. by inversion Hr.
Qed.

Lemma bounded_insert db d :
  bounded db →
  bounded (mkDb (<[next_event_id db := d]> (events db))
                (S (next_event_id db)) (swaprequests db)).
Proof.
  intros [Hs Hrf Hl]. split; simpl.
  - intros n [e He]. rewrite lookup_insert in He.
    case_decide; [lia|]. specialize (Hs n (ex_intro _ e He)). lia.
  - intros r Hr. specialize (Hrf r Hr). lia.
  - intros n e He. rewrite lookup_insert in He. case_decide as Hn.
    + subst n. unfold pending_refs. simpl.
      rewrite filter_length_none; [lia|]. intros r Hr. specialize (Hrf r Hr).
      unfold references.
      rewrite !bool_decide_eq_false_2 by lia. apply andb_false_r.
    + exact (Hl n e He).
Qed.

Lemma bounded_alter db n e f :
  bounded db → events db !! n = Some e →
  eventSchema.status e ≠ SWAP_PENDING →
  bounded (with_events (alter f n) db).
Proof.
  intros [Hs Hrf Hl] He Hst. split; simpl.
  - intros m [e' He']. apply Hs. rewrite lookup_alter in He'.
    case_decide; [subst; eauto|eauto].
  - done.
  - intros m e' He'. rewrite lookup_alter in He'. case_decide as Hm.
    + subst m. specialize (Hl n e He). rewrite decide_False in Hl by done.
      change (pending_refs (with_events (alter f n) db) n)
        with (pending_refs db n). lia.
    + exact (Hl m e' He').
Qed.

Lemma bounded_delete db n : bounded db → bounded (with_events (delete n) db).
Proof.
  intros [Hs Hrf Hl]. split; simpl.
  - intros m [e He]. apply Hs. rewrite lookup_delete in He.
    case_decide; [done|eauto].
  - done.
  - intros m e He. rewrite lookup_delete in He. case_decide; [done|].
    exact (Hl m e He).
Qed.

Lemma bounded_propose db user a c ea ec now :
  bounded db →
  events db !! a = Some ea → events db !! c = Some ec →
  eventSchema.status ea = SWAPPABLE → eventSchema.status ec = SWAPPABLE →
  bounded
    (mkDb (alter (eventSchema.with_status SWAP_PENDING) c
             (alter (eventSchema.with_status SWAP_PENDING) a (events db)))
          (next_event_id db)
          (swaprequests db ++
             [swapRequestSchema.mk user a (eventSchema.user_id ec) c PENDING now])).
Proof.
  intros [Hs Hrf Hl] Ha Hc Hsa Hsc. split; simpl.
  - intros m [e' He']. apply Hs.
    apply alter_pair_lookup in He' as [(_ & _ & H)|(_ & e & H & _)]; eauto.
  - intros r [Hr|Hr]%elem_of_app; [by apply Hrf|].
    apply list_elem_of_singleton in Hr as ->. simpl.
    split; apply Hs; eauto.
  - intros m e' He'. rewrite pending_refs_app.
    change (pending_refs (mkDb _ (next_event_id db) (swaprequests db)) m)
      with (pending_refs db m).
    unfold references; simpl.
    apply alter_pair_lookup in He' as [(Hma & Hmc & H)|(Hm & e & H & He')].
    + rewrite !bool_decide_eq_false_2 by done. simpl.
      rewrite Nat.add_0_r. exact (Hl m e' H).
    + assert (eventSchema.status e' = SWAP_PENDING) as ->
        by by destruct He' as [->|[->| ->]].
      assert (eventSchema.status e = SWAPPABLE) as Hst
        by (destruct Hm as [->| ->]; congruence).
      specialize (Hl m e H). rewrite Hst in Hl. simpl in *.
      destruct (_ || _); lia.
Qed.

Lemma bounded_respond db i r fa fc st :
  bounded db →
  swaprequests db !! i = Some r → swapRequestSchema.status r = PENDING →
  st ≠ PENDING →
  bounded
    (mkDb (alter fc (swapRequestSchema.recipient_event_id r)
             (alter fa (swapRequestSchema.requester_event_id r) (events db)))
          (next_event_id db)
          (alter (swapRequestSchema.with_status st) i (swaprequests db))).
Proof.
  intros [Hs Hrf Hl] Hi Hr Hst. split; simpl.
  - intros m [e' He']. apply Hs.
    apply alter_pair_lookup in He' as [(_ & _ & H)|(_ & e & H & _)]; eauto.
  - intros r' Hr'. apply list_elem_of_lookup in Hr' as [j Hj].
    rewrite list_lookup_alter in Hj. case_decide as Hij.
    + subst j. rewrite Hi in Hj. injection Hj as <-. simpl.
      apply Hrf. apply list_elem_of_lookup. eauto.
    + apply Hrf. apply list_elem_of_lookup. eauto.
  - intros m e' He'.
    pose proof (pending_refs_resolve
                  (alter fc (swapRequestSchema.recipient_event_id r)
                     (alter fa (swapRequestSchema.requester_event_id r)
                        (events db)))
                  (next_event_id db) (swaprequests db) i r st m Hi Hr Hst)
      as Hcount.
    change (pending_refs (mkDb _ (next_event_id db) (swaprequests db)) m)
      with (pending_refs db m) in Hcount.
    apply alter_pair_lookup in He' as [(Hma & Hmc & H)|(Hm & e & H & He')].
    + specialize (Hl m e' H). lia.
    + assert (references m r = true) as Href.
      { unfold references. destruct Hm as [->| ->].
        - by rewrite bool_decide_eq_true_2.
        - rewrite (bool_decide_eq_true_2
                     (swapRequestSchema.recipient_event_id r
                      = swapRequestSchema.recipient_event_id r)) by done.
          apply orb_true_r. }
      rewrite Href in Hcount.
      specialize (Hl m e H). destruct (decide _), (decide _); lia.
Qed.

Lemma bounded_step db op : bounded db → bounded (exec no_faults op db).1.
Proof.
  intros Hdb. destruct op as [user b|user id b|user id|user now b|user id accept];
    simpl in *.
  - destruct (create_event_cases user b db) as [->|(d & Hst & ->)]; [done|].
    by apply bounded_insert.
  - destruct (update_event_cases user id b db)
      as [->|(n & e & f & He & Hst & Hf & ->)]; [done|].
    by apply (bounded_alter db n e f).
  - destruct (delete_event_cases user id db) as [->|(n & ->)]; [done|].
    by apply bounded_delete.
  - destruct (propose_cases user now b db)
      as [->|(a & c & ea & ec & Ha & Hc & Hsa & Hsc & ->)]; [done|].
    by apply (bounded_propose db user a c ea ec now).
  - destruct (respond_cases user id accept db)
      as [->|(n & r & ea & ec & fa & fc & Hn & Hr & Ha & Hc & Hfa & Hfc & ->)];
      [done|].
    apply (bounded_respond db n r fa fc); try done.
    by destruct accept.
Qed.

Lemma bounded_reachable db : reachable db → bounded db.
Proof.
  induction 1 as [|db op _ IH _]; [apply bounded_empty|]. by apply bounded_step.
Qed.

(** X1: when the operations are handled one at a time on a healthy
    database, whatever statuses callers hand to the create and update
    routes, in every state reached an event named by a [PENDING] request is
    [SWAP_PENDING] and is named by no second [PENDING] request.  (Handlers
    that overlap are not covered: see [overlapping_proposals_lock_twice].) *)
Theorem pending_reference_locks db i r n e :
  reachable db →
  swaprequests db !! i = Some r → swapRequestSchema.status r = PENDING →
  references n r = true → events db !! n = Some e →
  eventSchema.status e = SWAP_PENDING ∧ pending_refs db n = 1.
Proof.
  intros Hdb Hi Hr Hn He.
  pose proof (pending_refs_lower_bound db i r n Hi Hr Hn) as Hlow.
  pose proof (bounded_count db (bounded_reachable db Hdb) n e He) as Hup.
  destruct (decide (eventSchema.status e = SWAP_PENDING)); [split; [done|lia]|lia].
Qed.

Lemma pending_reference_locks_witness :
  eventSchema.status (eventSchema.mk 2 "dentist" 5 6 SWAP_PENDING) = SWAP_PENDING ∧
  pending_refs (run one_pending) 1 = 1.
Proof.
  refine (pending_reference_locks (run one_pending) 0
            (swapRequestSchema.mk 1 0 2 1 PENDING 10) 1
            (eventSchema.mk 2 "dentist" 5 6 SWAP_PENDING) _ _ _ _ _);
    try (vm_compute; reflexivity).
  apply (reach_step _ _ (Propose 1 10 _)); [|exact I].
  apply (reach_step _ _ (CreateEvent 2 _)); [|exact I].
  apply (reach_step _ _ (CreateEvent 1 _)); [|exact I].
  constructor.
Defined.

(** ** What no route does *)

Lemma update_changes_owner b f e :
  update_changes b = Some f → eventSchema.user_id (f e) = eventSchema.user_id e.
Proof.
  unfold update_changes, compose_changes. simpl.
  destruct (truthy (EventBody.title b)) as [t|];
    [destruct (cast_title t); simpl; [|done]|];
    (destruct (EventBody.start_time b); simpl; try done);
    (destruct (EventBody.end_time b); simpl; try done);
    (destruct (truthy (EventBody.status b)) as [sv|];
       [destruct (parse_status sv); simpl; [|done]|]);
    intros [= <-]; reflexivity.
Qed.

Lemma create_event_owner flt user b db n e e' :
  n < next_event_id db →
  events db !! n = Some e → events (create_event flt user b db).1 !! n = Some e' →
  e' = e.
Proof.
  intros Hn He. unfold create_event, handler, bind, Event.create.
  crunch; intros; lookups; try congruence; lia.
Qed.

Lemma update_event_owner flt user id b db n e e' :
  events db !! n = Some e → events (update_event flt user id b db).1 !! n = Some e' →
  eventSchema.user_id e' = eventSchema.user_id e.
Proof.
  intros He. unfold update_event, handler, bind, Event.findOne, Event.save.
  crunch; intros; lookups; try congruence.
  all: try (erewrite update_changes_owner by done; congruence).
Qed.

Lemma delete_event_owner flt user id db n e e' :
  events db !! n = Some e → events (delete_event flt user id db).1 !! n = Some e' →
  e' = e.
Proof.
  intros He. unfold delete_event, handler, bind, Event.findOne, Event.deleteOne.
  crunch; intros; lookups; congruence.
Qed.

Lemma propose_owner flt user now b db n e e' :
  events db !! n = Some e → events (propose flt user now b db).1 !! n = Some e' →
  eventSchema.user_id e' = eventSchema.user_id e.
Proof.
  intros He. unfold propose, handler, bind, Promise_all, Event.findById,
    SwapRequest.create, Event.findByIdAndUpdate, SwapRequest.findById.
  crunch; intros; lookups; congruence.
Qed.

Lemma reject_owner flt user id db n e e' :
  events db !! n = Some e →
  events (respond flt user id false db).1 !! n = Some e' →
  eventSchema.user_id e' = eventSchema.user_id e.
Proof.
  intros He. unfold respond, handler, bind, Promise_all,
    SwapRequest.save_status, Event.findByIdAndUpdate, SwapRequest.findById.
  crunch; intros; lookups; congruence.
Qed.

(** X2: ownership moves only when a swap is accepted.  In a reachable
    state, whatever the persistence layer does during the step, no create,
    update, delete, propose or rejecting respond changes the owner of a
    stored event. *)
Theorem only_accept_moves_ownership flt op db n e e' :
  reachable db → ¬ is_accept op →
  events db !! n = Some e → events (exec flt op db).1 !! n = Some e' →
  eventSchema.user_id e' = eventSchema.user_id e.
Proof.
  intros Hdb Hop He He'.
  destruct op as [user b|user id b|user id|user now b|user id [|]]; simpl in *.
  - rewrite (create_event_owner flt user b db n e e'); try done.
    apply (bounded_stored db (bounded_reachable db Hdb)). eauto.
  - by apply (update_event_owner flt user id b db n).
  - by rewrite (delete_event_owner flt user id db n e e').
  - by apply (propose_owner flt user now b db n).
  - done.
  - by apply (reject_owner flt user id db n).
Qed.

Lemma only_accept_moves_ownership_witness :
  eventSchema.user_id (eventSchema.mk 1 "gym" 1 2 SWAPPABLE) =
  eventSchema.user_id (eventSchema.mk 1 "gym" 1 2 SWAP_PENDING).
Proof.
  refine (only_accept_moves_ownership no_faults (Respond 2 (ObjectId 0) false)
            (run one_pending) 0 (eventSchema.mk 1 "gym" 1 2 SWAP_PENDING)
            (eventSchema.mk 1 "gym" 1 2 SWAPPABLE) _ _ _ _);
    try (vm_compute; reflexivity).
  - apply (reach_step _ _ (Propose 1 10 _)); [|exact I].
    apply (reach_step _ _ (CreateEvent 2 _)); [|exact I].
    apply (reach_step _ _ (CreateEvent 1 _)); [|exact I].
    constructor.
  - intros [].
Defined.

(** ** Requests are an audit trail *)

Lemma step_request_identity flt op db n r :
  swaprequests db !! n = Some r →
  ∃ r', swaprequests (exec flt op db).1 !! n = Some r' ∧ identity r' = identity r.
Proof.
  intros Hn. destruct op as [user b|user id b|user id|user now b|user id accept];
    simpl.
  - rewrite create_event_requests. eauto.
  - rewrite update_event_requests. eauto.
  - rewrite delete_event_requests. eauto.
  - destruct (propose_requests flt user now b db) as [->|[r' ->]]; [eauto|].
    exists r. split; [|done]. by apply lookup_app_l_Some.
  - destruct (respond_requests flt user id accept db)
      as [->|(m & r' & Hm & Hr' & ->)]; [eauto|].
    rewrite list_lookup_alter. case_decide; [|eauto]. subst m.
    rewrite Hn. simpl. eauto.
Qed.

(** X3: swap requests are never deleted and never rewritten.  Whatever
    operations follow, on a healthy or a failing database, a stored request
    stays under its id with the same requester, requester event, recipient,
    recipient event and creation instant; only its status can change. *)
Theorem requests_are_kept steps db n r :
  swaprequests db !! n = Some r →
  ∃ r', swaprequests (run_from db steps) !! n = Some r' ∧
        identity r' = identity r.
Proof.
  revert db r. induction steps as [|[flt op] steps IH]; intros db r Hn; [eauto|].
  simpl. destruct (step_request_identity flt op db n r Hn) as (r1 & H1 & Hid).
  destruct (IH _ r1 H1) as (r' & H' & Hid'). exists r'. split; [done|].
  congruence.
Qed.

Lemma requests_are_kept_witness :
  ∃ r', swaprequests
          (run_from (run one_pending)
             [(event_1_unwritable, Respond 2 (ObjectId 0) true);
              (no_faults, DeleteEvent 1 (ObjectId 0))]) !! 0 = Some r' ∧
        identity r' = identity (swapRequestSchema.mk 1 0 2 1 PENDING 10).
Proof.
  refine (requests_are_kept _ (run one_pending) 0
            (swapRequestSchema.mk 1 0 2 1 PENDING 10) _).
  vm_compute; reflexivity.
Defined.

(** ** A pending request whose event was deleted *)

Lemma respond_requests_events flt user id accept db :
  swaprequests (respond flt user id accept db).1 = swaprequests db ∨
  ∃ n r, swaprequests db !! n = Some r ∧
         is_Some (events db !! swapRequestSchema.requester_event_id r) ∧
         is_Some (events db !! swapRequestSchema.recipient_event_id r) ∧
         swaprequests (respond flt user id accept db).1 =
           alter (swapRequestSchema.with_status
                    (if accept then ACCEPTED else REJECTED)) n (swaprequests db).
Proof.
  destruct id as [|n]; [by left|].
  destruct (swaprequests db !! n) as [r|] eqn:Hr; cycle 1.
  { left. unfold respond, handler, bind, SwapRequest.findById. by rewrite Hr. }
  destruct (decide (swapRequestSchema.recipient_id r = user)) as [Hu|Hu]; cycle 1.
  { left. by rewrite (respond_forbidden _ _ _ _ _ Hr). }
  destruct (decide (swapRequestSchema.status r = PENDING)) as [Hst|Hst]; cycle 1.
  { left. by rewrite (respond_resolved _ _ _ _ _ Hr). }
  destruct (events db !! swapRequestSchema.requester_event_id r) as [ea|] eqn:Ha;
    cycle 1.
  { left. rewrite (respond_events_gone _ _ _ _ _ Hr); auto. }
  destruct (events db !! swapRequestSchema.recipient_event_id r) as [ec|] eqn:Hc;
    cycle 1.
  { left. rewrite (respond_events_gone _ _ _ _ _ Hr); auto. }
  destruct (flt (RequestDoc n)) eqn:Hreq.
  { left. by rewrite (respond_request_write_fails _ _ _ _ _ Hr _ _ Hu Hst Ha Hc). }
  right. exists n, r. rewrite Ha, Hc. split_and!; [done|eauto..|].
  rewrite (respond_writes flt user n accept r ea ec db Hr Hu Hst Ha Hc Hreq).
  simpl. by repeat case_match.
Qed.

Lemma step_counter flt op db :
  next_event_id db ≤ next_event_id (exec flt op db).1.
Proof.
  destruct op; simpl;
    unfold create_event, update_event, delete_event, propose, respond,
      handler, bind, Promise_all, Event.create, Event.findOne, Event.save,
      Event.deleteOne, Event.findById, Event.findByIdAndUpdate,
      SwapRequest.create, SwapRequest.save_status, SwapRequest.findById;
    crunch; lia.
Qed.

Lemma step_deleted_stays flt op db a :
  events db !! a = None → a < next_event_id db →
  events (exec flt op db).1 !! a = None.
Proof.
  intros Ha Hlt. destruct op; simpl;
    unfold create_event, update_event, delete_event, propose, respond,
      handler, bind, Promise_all, Event.create, Event.findOne, Event.save,
      Event.deleteOne, Event.findById, Event.findByIdAndUpdate,
      SwapRequest.create, SwapRequest.save_status, SwapRequest.findById;
    crunch; try done;
    rewrite ?lookup_alter, ?lookup_delete, ?lookup_insert;
    repeat case_decide; simplify_eq/=; try done; try lia;
    rewrite ?Ha; try done.
  all: repeat match goal with
              | H : ?x = ?y |- context [events _ !! ?x] => rewrite H
              end; by rewrite Ha.
Qed.

Lemma step_orphan_stays flt op db a n r :
  events db !! a = None →
  swaprequests db !! n = Some r → references a r = true →
  swaprequests (exec flt op db).1 !! n = Some r.
Proof.
  intros Ha Hn Href.
  destruct op as [user b|user id b|user id|user now b|user id accept]; simpl.
  - by rewrite create_event_requests.
  - by rewrite update_event_requests.
  - by rewrite delete_event_requests.
  - destruct (propose_requests flt user now b db) as [->|[r' ->]]; [done|].
    by apply lookup_app_l_Some.
  - destruct (respond_requests_events flt user id accept db)
      as [->|(m & r' & Hm & [ea Hea] & [ec Hec] & ->)]; [done|].
    rewrite list_lookup_alter_ne; [done|]. intros ->.
    rewrite Hn in Hm. injection Hm as <-.
    unfold references in Href. apply orb_true_iff in Href as [H|H];
      apply bool_decide_eq_true_1 in H; congruence.
Qed.

(** X4: a request whose event was deleted can never be resolved.  Once a
    referenced event is gone, whatever operations follow on a healthy or a
    failing database, the event id stays unused and the [PENDING] request
    stays as it was; every answer of its recipient fails with the 404
    events-gone failure and changes nothing. *)
Theorem orphaned_request_is_stuck steps db a n r accept flt :
  events db !! a = None → a < next_event_id db →
  swaprequests db !! n = Some r → swapRequestSchema.status r = PENDING →
  references a r = true →
  let db' := run_from db steps in
  events db' !! a = None ∧ swaprequests db' !! n = Some r ∧
  respond flt (swapRequestSchema.recipient_id r) (ObjectId n) accept db' =
    (db', EventsGone).
Proof.
  intros Ha Hlt Hn Hst Href db'. subst db'.
  assert (events (run_from db steps) !! a = None ∧
          swaprequests (run_from db steps) !! n = Some r) as [Ha' Hn'].
  { revert db Ha Hlt Hn.
    induction steps as [|[flt' op] steps IH]; intros db Ha Hlt Hn; [done|].
    simpl. apply IH.
    - by apply step_deleted_stays.
    - pose proof (step_counter flt' op db). lia.
    - by apply (step_orphan_stays flt' op db a). }
  split_and!; [done..|].
  apply (respond_events_gone _ n accept r); try done.
  unfold references in Href. apply orb_true_iff in Href as [H|H];
    apply bool_decide_eq_true_1 in H; subst a; auto.
Qed.

Lemma orphaned_request_is_stuck_witness :
  let db := (delete_event no_faults 1 (ObjectId 0) (run one_pending)).1 in
  let db' := run_from db [(no_faults, CreateEvent 1 (event_body "run" 3 4 None))] in
  events db' !! 0 = None ∧
  swaprequests db' !! 0 = Some (swapRequestSchema.mk 1 0 2 1 PENDING 10) ∧
  respond no_faults
    (swapRequestSchema.recipient_id (swapRequestSchema.mk 1 0 2 1 PENDING 10))
    (ObjectId 0) true db' = (db', EventsGone).
Proof.
  refine (orphaned_request_is_stuck
            [(no_faults, CreateEvent 1 (event_body "run" 3 4 None))]
            (delete_event no_faults 1 (ObjectId 0) (run one_pending)).1 0 0
            (swapRequestSchema.mk 1 0 2 1 PENDING 10) true no_faults _ _ _ _ _);
    try (vm_compute; reflexivity).
  vm_compute. lia.
Defined.

(** ** The event listings *)

Lemma insert_asc_perm {A} (key : A → bson) x l : insert_asc key x l ≡ₚ x :: l.
Proof.
  induction l as [|y l IH]; [done|]. simpl.
  destruct (bson_ltb (key y) (key x)); [|done].
  rewrite IH. apply Permutation_swap.
Qed.

Lemma sort_asc_perm {A} (key : A → bson) l : sort_asc key l ≡ₚ l.
Proof.
  induction l as [|x l IH]; [done|].
  unfold sort_asc in *. simpl. by rewrite insert_asc_perm, IH.
Qed.

Lemma insert_asc_sorted {A} (key : A → bson) (f : A → Z) x l :
  (∀ y, key y = BDate (f y)) →
  StronglySorted (λ a b, (f a ≤ f b)%Z) l →
  StronglySorted (λ a b, (f a ≤ f b)%Z) (insert_asc key x l).
Proof.
  intros Hk. induction 1 as [|y l Hl IH Hy]; simpl.
  - repeat constructor.
  - rewrite !Hk. simpl. destruct (Z.ltb_spec (f y) (f x)) as [Hlt|Hge].
    + constructor; [done|].
      rewrite (insert_asc_perm key x l). constructor; [lia|done].
    + constructor; [by constructor|]. constructor; [done|].
      eapply Forall_impl; [exact Hy|]. simpl. intros z Hz. lia.
Qed.

Lemma sort_asc_sorted {A} (key : A → bson) (f : A → Z) l :
  (∀ y, key y = BDate (f y)) →
  StronglySorted (λ a b, (f a ≤ f b)%Z) (sort_asc key l).
Proof.
  intros Hk. induction l as [|x l IH]; [constructor|].
  unfold sort_asc in *. simpl. by apply insert_asc_sorted.
Qed.

Lemma start_time_is_a_date e :
  EventQuery.get "start_time" e = BDate (eventSchema.start_time e.2).
Proof. reflexivity. Qed.

Lemma find_by_start_time what filter db :
  lists filter (listing what (EventQuery.find filter "start_time") db) db.
Proof.
  eexists. split; [reflexivity|]. split_and!.
  - rewrite sort_asc_perm. apply NoDup_ListNoDup, List.NoDup_filter,
      NoDup_ListNoDup, NoDup_map_to_list.
  - apply sort_asc_sorted. apply start_time_is_a_date.
  - intros n e. rewrite sort_asc_perm.
    rewrite list_elem_of_In, List.filter_In, <- list_elem_of_In.
    by rewrite elem_of_map_to_list.
Qed.

Lemma marketplace_offers_aux user db :
  ∃ es, swappable_events user db = (db, inr es) ∧
    ∀ n e, (n, e) ∈ es ↔
      events db !! n = Some e ∧ eventSchema.status e = SWAPPABLE ∧
      eventSchema.user_id e ≠ user.
Proof.
  destruct (find_by_start_time "Failed to fetch swappable events"
              (λ e, bool_decide (eventSchema.status e = SWAPPABLE)
                    && negb (bool_decide (eventSchema.user_id e = user))) db)
    as (es & Hout & Hnd & Hs & Hin).
  exists es. split; [done|]. intros n e. rewrite Hin.
  rewrite andb_true_iff, negb_true_iff, bool_decide_eq_true,
    bool_decide_eq_false. done.
Qed.

(** X5: the marketplace is a read that returns, once each and earliest
    start first, exactly the stored events that are [SWAPPABLE] and not
    owned by the caller: never the caller's own events, never a [BUSY] or
    [SWAP_PENDING] one. *)
Theorem marketplace_offers user db :
  ∃ es, swappable_events user db = (db, inr es) ∧ NoDup es ∧
    StronglySorted
      (λ a b, (eventSchema.start_time a.2 ≤ eventSchema.start_time b.2)%Z) es ∧
    ∀ n e, (n, e) ∈ es ↔
      events db !! n = Some e ∧ eventSchema.status e = SWAPPABLE ∧
      eventSchema.user_id e ≠ user.
Proof.
  destruct (find_by_start_time "Failed to fetch swappable events"
              (λ e, bool_decide (eventSchema.status e = SWAPPABLE)
                    && negb (bool_decide (eventSchema.user_id e = user))) db)
    as (es & Hout & Hnd & Hs & Hin).
  exists es. split_and!; try done. intros n e. rewrite Hin.
  rewrite andb_true_iff, negb_true_iff, bool_decide_eq_true,
    bool_decide_eq_false. done.
Qed.

(** X6: the calendar route is a read that returns, once each and earliest
    start first, exactly the stored events owned by the caller, whatever
    their status. *)
Theorem calendar_lists_own_events user db :
  ∃ es, list_events user db = (db, inr es) ∧ NoDup es ∧
    StronglySorted
      (λ a b, (eventSchema.start_time a.2 ≤ eventSchema.start_time b.2)%Z) es ∧
    ∀ n e, (n, e) ∈ es ↔
      events db !! n = Some e ∧ eventSchema.user_id e = user.
Proof.
  destruct (find_by_start_time "Failed to fetch events"
              (λ e, bool_decide (eventSchema.user_id e = user)) db)
    as (es & Hout & Hnd & Hs & Hin).
  exists es. split_and!; try done. intros n e. rewrite Hin.
  by rewrite bool_decide_eq_true.
Qed.

(** X7: the caller's offers: a read that returns, once each and earliest
    start first, exactly the caller's own [SWAPPABLE] events, the ones the
    caller can put into a proposal. *)
Theorem own_offers user db :
  ∃ es, my_swappable_events user db = (db, inr es) ∧ NoDup es ∧
    StronglySorted
      (λ a b, (eventSchema.start_time a.2 ≤ eventSchema.start_time b.2)%Z) es ∧
    ∀ n e, (n, e) ∈ es ↔
      events db !! n = Some e ∧ eventSchema.user_id e = user ∧
      eventSchema.status e = SWAPPABLE.
Proof.
  destruct (find_by_start_time "Failed to fetch your swappable events"
              (λ e, bool_decide (eventSchema.user_id e = user)
                    && bool_decide (eventSchema.status e = SWAPPABLE)) db)
    as (es & Hout & Hnd & Hs & Hin).
  exists es. split_and!; try done. intros n e. rewrite Hin.
  by rewrite andb_true_iff, !bool_decide_eq_true.
Qed.

(** X8: a proposal takes both events off the market.  After a successful
    proposal on a healthy database, the marketplace of no user lists the
    requester's event or the recipient's event. *)
Theorem proposed_events_leave_marketplace user now b a c ea ec db viewer es :
  or_else (SwapBody.mySlotId b) (SwapBody.requester_event_id b)
    = Some (ObjectId a) →
  or_else (SwapBody.theirSlotId b) (SwapBody.recipient_event_id b)
    = Some (ObjectId c) →
  events db !! a = Some ea → events db !! c = Some ec →
  eventSchema.user_id ea = user →
  eventSchema.status ea = SWAPPABLE → eventSchema.status ec = SWAPPABLE →
  swappable_events viewer (propose no_faults user now b db).1
    = ((propose no_faults user now b db).1, inr es) →
  ∀ e, ((a, e) ∉ es) ∧ ((c, e) ∉ es).
Proof.
  intros Hmine Htheirs Ha Hc Hu Hsa Hsc Hes e.
  destruct (marketplace_offers_aux viewer (propose no_faults user now b db).1)
    as (es' & Hes' & Hin).
  rewrite Hes in Hes'. injection Hes' as <-.
  rewrite !Hin.
  rewrite (propose_success user now b a c ea ec db Hmine Htheirs Ha Hc Hu Hsa Hsc).
  simpl. rewrite !lookup_alter.
  split; intros (He & Hst & _); repeat case_decide; (simplify_eq/=);
    rewrite ?Ha, ?Hc in He; by simplify_eq/=.
Qed.

Lemma proposed_events_leave_marketplace_witness :
  swappable_events 3
      (propose no_faults 1 10 (swap_body 0 1) (run two_swappable)).1 =
    ((propose no_faults 1 10 (swap_body 0 1) (run two_swappable)).1, inr []) ∧
  ∀ e : eventSchema.doc,
    ((0, e) ∉ @nil (nat * eventSchema.doc)) ∧
    ((1, e) ∉ @nil (nat * eventSchema.doc)).
Proof.
  split; [vm_compute; reflexivity|].
  refine (proposed_events_leave_marketplace 1 10 (swap_body 0 1) 0 1
            (eventSchema.mk 1 "gym" 1 2 SWAPPABLE)
            (eventSchema.mk 2 "dentist" 5 6 SWAPPABLE)
            (run two_swappable) 3 [] _ _ _ _ _ _ _ _);
    vm_compute; reflexivity.
Defined.

(** ** The create route of [server.js] *)

(** X9: the two create endpoints.  [POST /api/swap-request] behaves as
    [POST /api/swap-requests] does on the body's [mySlotId] and
    [theirSlotId] alone: the two agree whenever both of these are given,
    and a body that names the events only as [requester_event_id] and
    [recipient_event_id] is turned down by [/api/swap-request] with the
    400 missing-ids failure, leaving the store as it was. *)
Theorem swap_request_reads_slot_ids_only flt user now b db :
  swap_request flt user now b db =
    propose flt user now
      (SwapBody.mk (SwapBody.mySlotId b) None (SwapBody.theirSlotId b) None) db ∧
  (is_Some (SwapBody.mySlotId b) → is_Some (SwapBody.theirSlotId b) →
   swap_request flt user now b db = propose flt user now b db) ∧
  (SwapBody.mySlotId b = None ∨ SwapBody.theirSlotId b = None →
   swap_request flt user now b db = (db, MissingIds)).
Proof.
  split_and!.
  - unfold swap_request, propose. simpl.
    by destruct (SwapBody.mySlotId b), (SwapBody.theirSlotId b).
  - intros [m Hm] [t Ht]. unfold swap_request, propose. by rewrite Hm, Ht.
  - unfold swap_request. intros [-> | ->]; [done|].
    by destruct (SwapBody.mySlotId b).
Qed.

(** ** Refusals that change nothing *)

(** X10: the create route validates before it stores.  A body without a
    title, a start or an end is refused with 400, and so is one whose end
    is not after its start; in both cases nothing is stored, whatever the
    persistence layer does. *)
Theorem create_event_refusals flt user b db :
  (truthy (EventBody.title b) = None ∨ EventBody.start_time b = NoDate ∨
   EventBody.end_time b = NoDate →
   create_event flt user b db =
     (db, mkResponse 400 (Error "Title, start time, and end time are required"))) ∧
  (∀ t s e, truthy (EventBody.title b) = Some t →
     EventBody.start_time b = Instant s → EventBody.end_time b = Instant e →
     (e ≤ s)%Z →
     create_event flt user b db =
       (db, mkResponse 400 (Error "End time must be after start time"))).
Proof.
  split.
  - intros H. unfold create_event.
    destruct (truthy (EventBody.title b)); [|done].
    destruct H as [H|[H|H]]; [done| |]; rewrite H; [done|].
    by destruct (EventBody.start_time b).
  - intros t s e Ht Hs He Hle. unfold create_event. rewrite Ht, Hs, He.
    simpl. by rewrite (proj2 (Z.leb_le e s) Hle).
Qed.

Lemma create_event_refusals_witness :
  create_event no_faults 1 (event_body "gym" 2 2 None) empty_db =
    (empty_db, mkResponse 400 (Error "End time must be after start time")).
Proof.
  refine (proj2 (create_event_refusals no_faults 1 (event_body "gym" 2 2 None)
                   empty_db) "gym" 2%Z 2%Z _ _ _ _);
    try (vm_compute; reflexivity).
  vm_compute. discriminate.
Defined.

(** X11: only the owner can update or delete an event.  Once the lookup
    is answered, for an event stored under another user both routes answer
    404 'Event not found', as for an id that is not stored at all, whatever
    the body; they send no write, so the store is unchanged and write
    faults play no part. *)
Theorem foreign_event_is_not_found flt user n b db :
  (∀ e, events db !! n = Some e → eventSchema.user_id e = user → False) →
  update_event flt user (ObjectId n) b db =
    (db, mkResponse 404 (Error "Event not found")) ∧
  delete_event flt user (ObjectId n) db =
    (db, mkResponse 404 (Error "Event not found")).
Proof.
  intros H. unfold update_event, delete_event, handler, bind, Event.findOne.
  destruct (events db !! n) as [e|] eqn:He; [|done].
  rewrite decide_False; [done|]. intros Hu. by apply (H e).
Qed.

Lemma foreign_event_is_not_found_witness :
  update_event no_faults 2 (ObjectId 0)
      (EventBody.mk None NoDate NoDate (Some "BUSY")) (run two_swappable) =
    (run two_swappable, mkResponse 404 (Error "Event not found")) ∧
  delete_event no_faults 2 (ObjectId 0) (run two_swappable) =
    (run two_swappable, mkResponse 404 (Error "Event not found")).
Proof.
  refine (foreign_event_is_not_found no_faults 2 0 _ (run two_swappable) _).
  intros e He. vm_compute in He. injection He as <-. discriminate.
Defined.

(** X12: a locked event cannot be edited.  Once the lookup is answered,
    the owner's update of a [SWAP_PENDING] event is refused with 400 'Cannot
    modify events with pending swaps', whatever the body (title, times or
    status); no write is sent, so the store is unchanged and write faults
    play no part. *)
Theorem locked_event_is_not_editable flt user n b e db :
  events db !! n = Some e → eventSchema.user_id e = user →
  eventSchema.status e = SWAP_PENDING →
  update_event flt user (ObjectId n) b db =
    (db, mkResponse 400 (Error "Cannot modify events with pending swaps")).
Proof. intros. by apply (update_event_locked user n b e db). Qed.

Lemma locked_event_is_not_editable_witness :
  update_event no_faults 1 (ObjectId 0)
      (EventBody.mk (Some "swim") NoDate NoDate (Some "BUSY")) (run one_pending) =
    (run one_pending,
     mkResponse 400 (Error "Cannot modify events with pending swaps")).
Proof.
  refine (locked_event_is_not_editable no_faults 1 0 _
            (eventSchema.mk 1 "gym" 1 2 SWAP_PENDING) (run one_pending) _ _ _);
    vm_compute; reflexivity.
Defined.

(** X13: the update route does not compare the times.  On an event of the
    caller that is not locked, a body that gives a start and an end stores
    both as given, also when the end is not after the start, which the
    create route refuses. *)
Theorem update_event_stores_any_times user n e s t db :
  events db !! n = Some e → eventSchema.user_id e = user →
  eventSchema.status e ≠ SWAP_PENDING →
  let out := update_event no_faults user (ObjectId n)
               (EventBody.mk None (Instant s) (Instant t) None) db in
  code out.2 = 200 ∧
  events out.1 !! n =
    Some (eventSchema.mk (eventSchema.user_id e) (eventSchema.title e) s t
            (eventSchema.status e)).
Proof.
  intros He Hu Hst out. subst out.
  rewrite (update_event_success user n
             (EventBody.mk None (Instant s) (Instant t) None) e db He Hu
             (λ e, eventSchema.with_end_time t (eventSchema.with_start_time s e))
             Hst eq_refl).
  simpl. by rewrite lookup_alter_eq, He.
Qed.

Lemma update_event_stores_any_times_witness :
  let out := update_event no_faults 1 (ObjectId 0)
               (EventBody.mk None (Instant 9) (Instant 3) None)
               (run two_swappable) in
  code out.2 = 200 ∧
  events out.1 !! 0 = Some (eventSchema.mk 1 "gym" 9 3 SWAPPABLE).
Proof.
  refine (update_event_stores_any_times 1 0
            (eventSchema.mk 1 "gym" 1 2 SWAPPABLE) 9 3 (run two_swappable)
            _ _ _);
    try (vm_compute; reflexivity).
  discriminate.
Defined.

(** X14: only the recipient can answer.  Once the lookup of the request
    is answered, a respond call by anyone but the request's recipient fails
    with the 403 failure, whatever the status of the request and the answer
    given, and an unknown request id gives 404; a string that is no ObjectId
    gives 400 before any lookup.  None of these sends a write, so the store
    is unchanged and write faults play no part. *)
Theorem respond_refusals flt user accept db :
  (∀ n r, swaprequests db !! n = Some r →
     swapRequestSchema.recipient_id r ≠ user →
     respond flt user (ObjectId n) accept db = (db, Forbidden)) ∧
  (∀ n, swaprequests db !! n = None →
     respond flt user (ObjectId n) accept db = (db, RequestNotFound)) ∧
  respond flt user NotAnObjectId accept db = (db, InvalidRequestId).
Proof.
  split_and!.
  - intros n r Hn Hu. by apply (respond_forbidden user n accept r).
  - intros n Hn. unfold respond, handler, bind, SwapRequest.findById.
    by rewrite Hn.
  - done.
Qed.

Lemma respond_refusals_witness :
  respond no_faults 3 (ObjectId 0) true (run one_pending)
    = (run one_pending, Forbidden).
Proof.
  refine (proj1 (respond_refusals no_faults 3 true (run one_pending)) 0
            (swapRequestSchema.mk 1 0 2 1 PENDING 10) _ _).
  - vm_compute; reflexivity.
  - discriminate.
Defined.

(** X15: a proposal is refused before anything is written.  Without both
    ids it fails with 400, with an id that names no stored event with 404,
    and on an event the requester does not own with 403; the store is
    unchanged each time, whatever the persistence layer does. *)
Theorem propose_refusals flt user now b db :
  (or_else (SwapBody.mySlotId b) (SwapBody.requester_event_id b) = None ∨
   or_else (SwapBody.theirSlotId b) (SwapBody.recipient_event_id b) = None →
   propose flt user now b db = (db, MissingIds)) ∧
  (∀ a c,
     or_else (SwapBody.mySlotId b) (SwapBody.requester_event_id b)
       = Some (ObjectId a) →
     or_else (SwapBody.theirSlotId b) (SwapBody.recipient_event_id b)
       = Some (ObjectId c) →
     events db !! a = None ∨ events db !! c = None →
     propose flt user now b db = (db, EventsNotFound)) ∧
  (∀ a c ea ec,
     or_else (SwapBody.mySlotId b) (SwapBody.requester_event_id b)
       = Some (ObjectId a) →
     or_else (SwapBody.theirSlotId b) (SwapBody.recipient_event_id b)
       = Some (ObjectId c) →
     events db !! a = Some ea → events db !! c = Some ec →
     eventSchema.user_id ea ≠ user →
     propose flt user now b db = (db, NotOwner)).
Proof.
  split_and!.
  - intros H. unfold propose.
    destruct H as [-> | ->]; [done|]. by destruct (or_else _ _).
  - intros a c Hmine Htheirs H. unfold propose. rewrite Hmine, Htheirs.
    unfold handler, bind, Promise_all, Event.findById.
    destruct H as [-> | ->]; [by destruct (events db !! c)|].
    by destruct (events db !! a).
  - intros a c ea ec Hmine Htheirs Ha Hc Hu.
    by apply (propose_not_owner user now b a c ea ec).
Qed.

Lemma propose_refusals_witness :
  propose no_faults 2 10 (swap_body 0 1) (run two_swappable)
    = (run two_swappable, NotOwner).
Proof.
  refine (proj2 (proj2 (propose_refusals no_faults 2 10 (swap_body 0 1)
                          (run two_swappable))) 0 1
            (eventSchema.mk 1 "gym" 1 2 SWAPPABLE)
            (eventSchema.mk 2 "dentist" 5 6 SWAPPABLE) _ _ _ _ _);
    try (vm_compute; reflexivity).
  discriminate.
Defined.

(** ** Creating events *)

(** X16: creating an event never touches the stored ones.  In a reachable
    state, whatever the body and whatever the persistence layer does, every
    stored event is still stored unchanged after the create route; a
    fresh id is used. *)
Theorem create_event_keeps_events flt user b db n e :
  reachable db → events db !! n = Some e →
  events (create_event flt user b db).1 !! n = Some e.
Proof.
  intros Hdb He.
  assert (n < next_event_id db) as Hlt
    by (apply (bounded_stored db (bounded_reachable db Hdb)); eauto).
  unfold create_event, handler, bind, Event.create.
  crunch; try done. rewrite lookup_insert_ne; [done|lia].
Qed.

Lemma create_event_keeps_events_witness :
  events (create_event no_faults 2 (event_body "run" 3 4 None)
            (run two_swappable)).1 !! 0 =
    Some (eventSchema.mk 1 "gym" 1 2 SWAPPABLE).
Proof.
  refine (create_event_keeps_events no_faults 2 (event_body "run" 3 4 None)
            (run two_swappable) 0 (eventSchema.mk 1 "gym" 1 2 SWAPPABLE) _ _).
  - apply (reach_step _ _ (CreateEvent 2 _)); [|exact I].
    apply (reach_step _ _ (CreateEvent 1 _)); [|exact I].
    constructor.
  - vm_compute; reflexivity.
Defined.

(** X17: what the schema refuses is not stored.  A create body that passes
    the route's own checks but fails a schema validator (a title of white
    space only, a date that does not parse, a status outside the enum) runs
    into the [catch]: the answer is 500 'Failed to create event' and the
    store is unchanged. *)
Theorem create_event_schema_refusal flt user b t db :
  truthy (EventBody.title b) = Some t →
  EventBody.start_time b ≠ NoDate → EventBody.end_time b ≠ NoDate →
  date_le (new_Date (EventBody.end_time b)) (new_Date (EventBody.start_time b))
    = false →
  cast_title t = None ∨ new_Date (EventBody.start_time b) = None ∨
  new_Date (EventBody.end_time b) = None ∨
  parse_status (default "BUSY" (truthy (EventBody.status b))) = None →
  create_event flt user b db =
    (db, mkResponse 500 (Failure "Failed to create event" ValidationError)).
Proof.
  intros Ht Hs He Hle Hbad. unfold create_event. rewrite Ht.
  destruct (EventBody.start_time b) as [| |s] eqn:Es; [done| |];
    (destruct (EventBody.end_time b) as [| |e] eqn:Ee; [done| |]);
    simpl in *; rewrite ?Hle; unfold handler, bind, Event.create;
    destruct (cast_title t); try done;
    destruct Hbad as [H|[H|[H|H]]]; try done; by rewrite H.
Qed.

Lemma create_event_schema_refusal_witness :
  create_event no_faults 1 (event_body "gym" 1 2 (Some "FREE")) empty_db =
    (empty_db, mkResponse 500 (Failure "Failed to create event" ValidationError)).
Proof.
  refine (create_event_schema_refusal no_faults 1
            (event_body "gym" 1 2 (Some "FREE")) "gym" empty_db _ _ _ _ _);
    try (vm_compute; reflexivity); try discriminate.
  right. right. right. vm_compute; reflexivity.
Defined.

(** X18: the event routes never touch the swap requests.  Creating,
    updating or deleting an event leaves the request collection as it was,
    whatever the persistence layer does; in particular deleting an event
    does not delete or resolve the requests that reference it. *)
Theorem event_routes_keep_requests flt user id b db :
  swaprequests (create_event flt user b db).1 = swaprequests db ∧
  swaprequests (update_event flt user id b db).1 = swaprequests db ∧
  swaprequests (delete_event flt user id db).1 = swaprequests db.
Proof.
  split_and!.
  - apply create_event_requests.
  - apply update_event_requests.
  - apply delete_event_requests.
Qed.

(** ** What a successful swap route touches *)





(** ** The request listings *)

(** X21: the request listings are reads that return exactly the requests
    addressed to the caller (incoming) or made by the caller (outgoing),
    each with its two events as currently stored, and leave the store
    alone. *)
Theorem request_listings_are_exact user db :
  ∃ inc out,
    listIncoming user db = (db, mkResponse 200 (DataRequests inc)) ∧
    listOutgoing user db = (db, mkResponse 200 (DataRequests out)) ∧
    (∀ p, p ∈ inc ↔
       ∃ n r, swaprequests db !! n = Some r ∧
              swapRequestSchema.recipient_id r = user ∧
              p = SwapRequest.populate db (n, r)) ∧
    (∀ p, p ∈ out ↔
       ∃ n r, swaprequests db !! n = Some r ∧
              swapRequestSchema.requester_id r = user ∧
              p = SwapRequest.populate db (n, r)).
Proof.
  do 2 eexists. split; [apply listIncoming_natural_order|].
  split; [apply listOutgoing_natural_order|].
  assert (Hall : ∀ n r, (n, r) ∈ SwapRequest.all db ↔ swaprequests db !! n = Some r).
  { intros n r. unfold SwapRequest.all. rewrite elem_of_lookup_imap.
    split; [intros (i & x & [= -> ->] & H); done|intros H; eauto]. }
  split; intros p; rewrite list_elem_of_fmap; split.
  - intros ([n r] & -> & Hin). apply list_elem_of_In, List.filter_In in Hin
      as [Hin Hf]. apply list_elem_of_In, Hall in Hin.
    apply bool_decide_eq_true_1 in Hf. eauto.
  - intros (n & r & Hn & Hu & ->). exists (n, r). split; [done|].
    apply list_elem_of_In, List.filter_In. split.
    + by apply list_elem_of_In, Hall.
    + by apply bool_decide_eq_true_2.
  - intros ([n r] & -> & Hin). apply list_elem_of_In, List.filter_In in Hin
      as [Hin Hf]. apply list_elem_of_In, Hall in Hin.
    apply bool_decide_eq_true_1 in Hf. eauto.
  - intros (n & r & Hn & Hu & ->). exists (n, r). split; [done|].
    apply list_elem_of_In, List.filter_In. split.
    + by apply list_elem_of_In, Hall.
    + by apply bool_decide_eq_true_2.
Qed.
